(** * chatbot.py: session and admission engine of the Discord chat bot

    A shallow embedding of [src/chatbot.py] and the properties of its
    router, cooldown, history cache, keep-alive task and segmenter.

    Python values are modelled as follows:

    - [str] is a list of characters, so that slicing is [take]/[drop];
    - user, channel and role ids are integers ([Z]);
    - a [datetime] is a number of microseconds since [datetime.min], a
      [timedelta] a number of microseconds ([Z]);
    - the three module-level [defaultdict]s are [gmap]s read through
      [defaultdict_getitem], which stores the default under a missing
      key exactly as Python does;
    - an exception is kept as its message, [str(e)];
    - a coroutine is a computation in a state-and-exception monad over
      the [World]: the three dictionaries, the tasks of the asyncio loop
      and the chronological trace of what the outside world has seen.

    What the platform, the clock and the completion service answer
    during one run of [on_message] is given by an [Env].  A handler runs
    from its first to its last line; other handlers are not interleaved
    at its [await]s, and the loop runs its background tasks between two
    handlers ([loop_step]). *)

From Stdlib Require Import ZArith Ascii String.
From stdpp Require Import gmap list.

Local Open Scope Z_scope.

(** ** Python values *)

Definition str : Type := list ascii.

(** A string literal of the source. *)
Definition lit (s : string) : str := list_ascii_of_string s.

(** [len(x)] as a Python integer. *)
Definition len {A : Type} (l : list A) : Z := Z.of_nat (length l).

(** Normalisation of one bound of a slice [s[i:j]] (step 1): a negative
    bound counts from the end, and both are clamped to [0 .. len s]. *)
Definition slice_bound (n i : Z) : Z :=
  if i <? 0 then Z.max 0 (i + n) else Z.min i n.

(** [s[i:j]] *)
Definition slice {A : Type} (s : list A) (i j : Z) : list A :=
  let a := slice_bound (len s) i in
  let b := slice_bound (len s) j in
  take (Z.to_nat (b - a)) (drop (Z.to_nat a) s).

(** The elements of [range(i, stop, step)] for [step > 0]; [fuel] bounds
    the number of elements. *)
Fixpoint range_up (fuel : nat) (i stop step : Z) : list Z :=
  match fuel with
  | O => []
  | S fuel' =>
      if i <? stop then i :: range_up fuel' (i + step) stop step else []
  end.

(** The same for [step < 0]. *)
Fixpoint range_down (fuel : nat) (i stop step : Z) : list Z :=
  match fuel with
  | O => []
  | S fuel' =>
      if stop <? i then i :: range_down fuel' (i + step) stop step else []
  end.

(** The outcome of evaluating a Python expression or statement: a value,
    or a raised exception (kept as its [str(e)]). *)
Inductive Res (A : Type) : Type :=
| Ok (a : A)
| Raise (e : str).
Arguments Ok {A} a.
Arguments Raise {A} e.

(** [range(start, stop, step)]: raises [ValueError] on a zero step. *)
Definition range (start stop step : Z) : Res (list Z) :=
  if step =? 0 then Raise (lit "range() arg 3 must not be zero")
  else if 0 <? step
       then Ok (range_up (Z.to_nat (stop - start)) start stop step)
       else Ok (range_down (Z.to_nat (start - stop)) start stop step).

(** ** Output segmenter *)

(** def split_message(content, limit=2000):
        return [content[i:i+limit] for i in range(0, len(content), limit)] *)
Definition split_message (content : str) (limit : Z) : Res (list str) :=
  match range 0 (len content) limit with
  | Ok idx => Ok (map (fun i => slice content i (i + limit)) idx)
  | Raise e => Raise e
  end.

Definition default_limit : Z := 2000.

(** ** Data of the bot *)

(** One turn of a conversation: [(role, content)], as the cache stores
    it and as the request carries it. *)
Definition Turn : Type := (str * str)%type.

(** What the handlers read of a [discord.Message]. *)
Record Message : Type := {
  author_id : Z;             (* message.author.id *)
  author_bot : bool;         (* message.author.bot *)
  author_roles : list Z;     (* message.author.roles *)
  mentions : list Z;         (* message.mentions, as user ids *)
  reference : option Z;      (* message.reference, as the id of the resolved message's author *)
  channel_id : Z;            (* message.channel.id *)
  guild_roles : list Z;      (* the roles message.guild knows *)
  content : str              (* message.content *)
}.

(** The configuration read at start-up, the bot's own user id and the
    platform's order on roles ([Role.__ge__]). *)
Record Config : Type := {
  MAX_CACHE : Z;
  COOLDOWN_TIME : Z;
  ROLE_ID : Z;
  SYSTEM_MESSAGE : str;
  bot_user : Z;
  role_ge : Z -> Z -> bool
}.

(** Effects on the outside world, in the order they happen. *)
Inductive Effect : Type :=
| ESend (channel : Z) (text : str)      (* channel.send(text) *)
| ETyping (channel : Z)                 (* channel.trigger_typing() *)
| ECreate (messages : list Turn)        (* openai.ChatCompletion.create(messages=...) *)
| ELogError (text : str).               (* logger.error(text) *)

(** The two coroutines the bot runs as background tasks. *)
Inductive Coro : Type :=
| keep_typing (channel : Z)
| cooldown_user (user_id : Z).

Inductive Status : Type :=
| Ready                   (* created, first step not run yet *)
| Sleeping (until : Z)    (* inside asyncio.sleep *)
| Cancelled
| Done.

Record Task : Type := { coro : Coro; status : Status }.

(** The value of [user_last_interaction[...]]: [{"time": ..., "channel": ...}]. *)
Definition Interaction : Type := (Z * option Z)%type.

Record World : Type := {
  user_message_cache : gmap Z (list Turn);
  user_cooldown : gmap Z Z;
  user_last_interaction : gmap Z Interaction;
  tasks : list Task;        (* tasks of the asyncio loop; a handle is an index *)
  trace : list Effect
}.

(** What the outside answers during one run of [on_message]. *)
Record Env : Type := {
  utcnow_route : Z;                                   (* datetime.utcnow() of line 62 *)
  utcnow_done : Z;                                    (* datetime.utcnow() of line 75 *)
  ChatCompletion_create : list Turn -> Res (list str); (* the contents of response.choices *)
  channel_send : Z -> str -> Res unit
}.

Definition datetime_min : Z := 0.
Definition timedelta_seconds (n : Z) : Z := n * 1000000.

Definition default_interaction : Interaction := (datetime_min, None).

(** [d[k]] on a [defaultdict]: a missing key is first set to the default. *)
Definition defaultdict_getitem {V : Type} (dflt : V) (d : gmap Z V) (k : Z)
  : V * gmap Z V :=
  match d !! k with
  | Some v => (v, d)
  | None => (dflt, <[k := dflt]> d)
  end.

(** Observers: what a read of each dictionary would return. *)
Definition history (w : World) (uid : Z) : list Turn :=
  default [] (user_message_cache w !! uid).
Definition cooldown (w : World) (uid : Z) : Z :=
  default 0 (user_cooldown w !! uid).
Definition last_interaction (w : World) (uid : Z) : Interaction :=
  default default_interaction (user_last_interaction w !! uid).

(** ** The state-and-exception monad of a coroutine *)

Definition M (A : Type) : Type := World -> Res A * World.

Definition ret {A : Type} (a : A) : M A := fun w => (Ok a, w).
Definition raise {A : Type} (e : str) : M A := fun w => (Raise e, w).
Definition bind {A B : Type} (c : M A) (k : A -> M B) : M B :=
  fun w => match c w with
           | (Ok a, w') => k a w'
           | (Raise e, w') => (Raise e, w')
           end.

(** [try: body except Exception as e: handler e]; what [body] did to the
    world before raising stays done. *)
Definition try_except {A : Type} (body : M A) (handler : str -> M A) : M A :=
  fun w => match body w with
           | (Ok a, w') => (Ok a, w')
           | (Raise e, w') => handler e w'
           end.

Declare Scope py_scope.
Delimit Scope py_scope with py.
Notation "x <- c ;; k" := (bind c (fun x => k))
  (at level 100, c at next level, right associativity) : py_scope.
Notation "c ;;; k" := (bind c (fun _ => k))
  (at level 100, right associativity) : py_scope.
Local Open Scope py_scope.

Definition set_cache (d : gmap Z (list Turn)) (w : World) : World :=
  {| user_message_cache := d; user_cooldown := user_cooldown w;
     user_last_interaction := user_last_interaction w;
     tasks := tasks w; trace := trace w |}.
Definition set_cooldown (d : gmap Z Z) (w : World) : World :=
  {| user_message_cache := user_message_cache w; user_cooldown := d;
     user_last_interaction := user_last_interaction w;
     tasks := tasks w; trace := trace w |}.
Definition set_last_interaction (d : gmap Z Interaction) (w : World) : World :=
  {| user_message_cache := user_message_cache w; user_cooldown := user_cooldown w;
     user_last_interaction := d;
     tasks := tasks w; trace := trace w |}.
Definition set_tasks (ts : list Task) (w : World) : World :=
  {| user_message_cache := user_message_cache w; user_cooldown := user_cooldown w;
     user_last_interaction := user_last_interaction w;
     tasks := ts; trace := trace w |}.
Definition emit (es : list Effect) (w : World) : World :=
  {| user_message_cache := user_message_cache w; user_cooldown := user_cooldown w;
     user_last_interaction := user_last_interaction w;
     tasks := tasks w; trace := trace w ++ es |}.

(** [user_message_cache[uid]] *)
Definition cache_getitem (uid : Z) : M (list Turn) :=
  fun w => let '(v, d) := defaultdict_getitem [] (user_message_cache w) uid in
           (Ok v, set_cache d w).

(** [user_cooldown[uid]] *)
Definition cooldown_getitem (uid : Z) : M Z :=
  fun w => let '(v, d) := defaultdict_getitem 0 (user_cooldown w) uid in
           (Ok v, set_cooldown d w).

(** [user_last_interaction[uid]] *)
Definition last_interaction_getitem (uid : Z) : M Interaction :=
  fun w => let '(v, d) :=
             defaultdict_getitem default_interaction (user_last_interaction w) uid in
           (Ok v, set_last_interaction d w).

(** [user_cooldown[uid] = v] *)
Definition cooldown_setitem (uid v : Z) : M unit :=
  fun w => (Ok tt, set_cooldown (<[uid := v]> (user_cooldown w)) w).

(** [user_last_interaction[uid] = v] *)
Definition last_interaction_setitem (uid : Z) (v : Interaction) : M unit :=
  fun w => (Ok tt, set_last_interaction (<[uid := v]> (user_last_interaction w)) w).

(** [user_message_cache[uid].popleft()]: [IndexError] on an empty deque. *)
Definition cache_popleft (uid : Z) : M unit :=
  h <- cache_getitem uid ;;
  match h with
  | [] => raise (lit "pop from an empty deque")
  | _ :: rest =>
      fun w => (Ok tt, set_cache (<[uid := rest]> (user_message_cache w)) w)
  end.

(** [user_message_cache[uid].append(x)] *)
Definition cache_append (uid : Z) (x : Turn) : M unit :=
  h <- cache_getitem uid ;;
  fun w => (Ok tt, set_cache (<[uid := h ++ [x]]> (user_message_cache w)) w).

(** [asyncio.create_task(c)]: the new task waits for the loop; its
    handle is returned. *)
Definition create_task (c : Coro) : M nat :=
  fun w => (Ok (length (tasks w)),
            set_tasks (tasks w ++ [{| coro := c; status := Ready |}]) w).

Definition cancel_status (s : Status) : Status :=
  match s with
  | Ready | Sleeping _ => Cancelled
  | Cancelled => Cancelled
  | Done => Done
  end.

(** [task.cancel()] *)
Definition task_cancel (h : nat) : M unit :=
  fun w => (Ok tt,
            set_tasks (alter (fun t => {| coro := coro t;
                                          status := cancel_status (status t) |})
                             h (tasks w)) w).

(** [logger.error(text)] *)
Definition logger_error (text : str) : M unit :=
  fun w => (Ok tt, emit [ELogError text] w).

(** [for x in xs: body(x)] *)
Fixpoint for_each {A : Type} (xs : list A) (body : A -> M unit) : M unit :=
  match xs with
  | [] => ret tt
  | x :: xs' => body x ;;; for_each xs' body
  end.

(** ** Router *)

(** mentioned = bot.user in message.mentions *)
Definition mentioned (cfg : Config) (m : Message) : bool :=
  bool_decide (bot_user cfg ∈ mentions m).

(** replied_to_bot = message.reference and
      message.reference.resolved.author.id == bot.user.id *)
Definition replied_to_bot (cfg : Config) (m : Message) : bool :=
  match reference m with
  | Some a => bool_decide (a = bot_user cfg)
  | None => false
  end.

(** within_time = datetime.utcnow() - last_inter["time"] <= timedelta(seconds=120) *)
Definition within_time (now : Z) (last_inter : Interaction) : bool :=
  now - last_inter.1 <=? timedelta_seconds 120.

(** same_channel = last_inter["channel"] == message.channel.id *)
Definition same_channel (last_inter : Interaction) (m : Message) : bool :=
  bool_decide (last_inter.2 = Some (channel_id m)).

(** The condition of line 65, before its negation. *)
Definition should_respond (cfg : Config) (m : Message) (last_inter : Interaction)
    (now : Z) : bool :=
  mentioned cfg m || replied_to_bot cfg m
  || (within_time now last_inter && same_channel last_inter m).

(** The engagement rule in the words of the specification, for comparison
    with [should_respond]. *)
Definition shouldEngage_spec (mentionsAgent isReplyToAgent : Prop)
    (last_inter : Interaction) (now channel : Z) : Prop :=
  mentionsAgent ∨ isReplyToAgent
  ∨ (now - last_inter.1 ≤ timedelta_seconds 120 ∧ last_inter.2 = Some channel).

(** ** Permission *)

(** message.guild.get_role(ROLE_ID) *)
Definition get_role (m : Message) (role_id : Z) : option Z :=
  if bool_decide (role_id ∈ guild_roles m) then Some role_id else None.

(** not role or (role not in message.author.roles
                 and not any(r >= role for r in message.author.roles)) *)
Definition permission_denied (cfg : Config) (m : Message) : bool :=
  match get_role m (ROLE_ID cfg) with
  | None => true
  | Some role =>
      negb (bool_decide (role ∈ author_roles m))
      && negb (existsb (fun r => role_ge cfg r role) (author_roles m))
  end.

(** ** The handlers *)

Definition cooldown_notice : str := lit "Please wait a bit before chatting again!".
Definition permission_notice : str :=
  lit "Sorry, you don't have permission to interact with me!".

(** f"An error occurred: {e}" and f"Error during OpenAI call: {e}" *)
Definition error_notice (e : str) : str := lit "An error occurred: " ++ e.
Definition error_log (e : str) : str := lit "Error during OpenAI call: " ++ e.

Section Handlers.
Variable cfg : Config.
Variable env : Env.

(** await channel.send(text) *)
Definition send (channel : Z) (text : str) : M unit :=
  fun w => (channel_send env channel text, emit [ESend channel text] w).

(** openai.ChatCompletion.create(model=OPENAI_MODEL, messages=messages) *)
Definition openai_create (messages : list Turn) : M (list str) :=
  fun w => (ChatCompletion_create env messages, emit [ECreate messages] w).

(** response.choices[0].message.content *)
Definition first_choice (choices : list str) : M str :=
  match choices with
  | [] => raise (lit "list index out of range")
  | c :: _ => ret c
  end.

(** async def send_large_message(channel, content):
        for chunk in split_message(content):
            await channel.send(chunk) *)
Definition send_large_message (channel : Z) (text : str) : M unit :=
  match split_message text default_limit with
  | Ok chunks => for_each chunks (send channel)
  | Raise e => raise e
  end.

(** Lines 92-95: the request sent to the completion service. *)
Definition build_messages (cache : list Turn) (new_content : str) : list Turn :=
  let messages := [(lit "system", SYSTEM_MESSAGE cfg)] in
  let messages :=
    foldl (fun msgs '(role_, content_) => msgs ++ [(role_, content_)])
          messages cache in
  messages ++ [(lit "user", new_content)].

(** Lines 99-116: the body of the [try]. *)
Definition exchange (m : Message) (typing_task : nat) (messages : list Turn)
  : M unit :=
  let uid := author_id m in
  response <- openai_create messages ;;
  task_cancel typing_task ;;;
  ai_text <- first_choice response ;;
  send_large_message (channel_id m) ai_text ;;;
  h <- cache_getitem uid ;;
  (if MAX_CACHE cfg <=? len h then cache_popleft uid else ret tt) ;;;
  cache_append uid (lit "user", content m) ;;;
  cache_append uid (lit "assistant", ai_text) ;;;
  cooldown_setitem uid (COOLDOWN_TIME cfg) ;;;
  _ <- create_task (cooldown_user uid) ;;
  ret tt.

(** Lines 118-121: the [except Exception as e] clause. *)
Definition on_error (m : Message) (typing_task : nat) (e : str) : M unit :=
  task_cancel typing_task ;;;
  logger_error (error_log e) ;;;
  send (channel_id m) (error_notice e).

(** Lines 83-121: what [chat_with_openai] does once the cooldown check
    has let the message through.  [openai.ChatCompletion.create] is an
    ordinary blocking call: from the creation of the keep-alive task to
    its [cancel()] the coroutine never awaits. *)
Definition conversation (m : Message) : M unit :=
  typing_task <- create_task (keep_typing (channel_id m)) ;;
  cache <- cache_getitem (author_id m) ;;
  let messages := build_messages cache (content m) in
  try_except (exchange m typing_task messages) (on_error m typing_task).

(** async def chat_with_openai(message) *)
Definition chat_with_openai (m : Message) : M unit :=
  cd <- cooldown_getitem (author_id m) ;;
  if negb (cd =? 0) then
    send (channel_id m) cooldown_notice
  else
    conversation m.

(** async def on_message(message) *)
Definition on_message (m : Message) : M unit :=
  if author_bot m then ret tt
  else
    last_inter <- last_interaction_getitem (author_id m) ;;
    if negb (should_respond cfg m last_inter (utcnow_route env)) then ret tt
    else if permission_denied cfg m then
      send (channel_id m) permission_notice
    else
      chat_with_openai m ;;;
      last_interaction_setitem (author_id m)
        (utcnow_done env, Some (channel_id m)).

End Handlers.

(** ** The asyncio loop *)

(** One turn of the loop at time [now] for one task: a task that is ready
    or whose sleep is over runs up to its next [await asyncio.sleep].

    async def keep_typing(channel):
        while True:
            await channel.trigger_typing()
            await asyncio.sleep(5)

    async def cooldown_user(user_id):
        await asyncio.sleep(COOLDOWN_TIME)
        user_cooldown[user_id] = 0 *)
Definition resume (cfg : Config) (now : Z) (t : Task) (cd : gmap Z Z)
  : Task * gmap Z Z * list Effect :=
  let due := match status t with
             | Ready => true
             | Sleeping until => until <=? now
             | Cancelled | Done => false
             end in
  if due then
    match coro t, status t with
    | keep_typing ch, _ =>
        ({| coro := coro t; status := Sleeping (now + timedelta_seconds 5) |},
         cd, [ETyping ch])
    | cooldown_user uid, Ready =>
        ({| coro := coro t;
            status := Sleeping (now + timedelta_seconds (COOLDOWN_TIME cfg)) |},
         cd, [])
    | cooldown_user uid, _ =>
        ({| coro := coro t; status := Done |}, <[uid := 0]> cd, [])
    end
  else (t, cd, []).

Fixpoint resume_all (cfg : Config) (now : Z) (ts : list Task) (cd : gmap Z Z)
  : list Task * gmap Z Z * list Effect :=
  match ts with
  | [] => ([], cd, [])
  | t :: ts' =>
      let '(t', cd1, es1) := resume cfg now t cd in
      let '(ts'', cd2, es2) := resume_all cfg now ts' cd1 in
      (t' :: ts'', cd2, es1 ++ es2)
  end.

(** The loop runs every due task once, at time [now]. *)
Definition loop_step (cfg : Config) (now : Z) (w : World) : World :=
  let '(ts, cd, es) := resume_all cfg now (tasks w) (user_cooldown w) in
  emit es (set_tasks ts (set_cooldown cd w)).

(** The keep-alive tasks that may still signal. *)
Definition is_live_typing (t : Task) : bool :=
  match coro t, status t with
  | keep_typing _, (Ready | Sleeping _) => true
  | _, _ => false
  end.
Definition live_typing (w : World) : list Task :=
  filter (fun t => is_live_typing t = true) (tasks w).

(** ** Observations used in the statements *)

(** The world after [on_message] has handled [m]. *)
Definition after (cfg : Config) (env : Env) (m : Message) (w : World) : World :=
  (on_message cfg env m w).2.

(** The effects a computation adds to the trace of [w]. *)
Definition new_effects (w w' : World) : list Effect :=
  drop (length (trace w)) (trace w').

(** ** A concrete scenario

    [MAX_CACHE = 5], [COOLDOWN_TIME = 2]; user 7 writes in channel 3 of a
    guild where the user holds the required role 10; the bot is user 1. *)

Definition cfg5 : Config :=
  {| MAX_CACHE := 5; COOLDOWN_TIME := 2; ROLE_ID := 10;
     SYSTEM_MESSAGE := lit "be kind"; bot_user := 1;
     role_ge := fun r role => role <=? r |}.

Definition world0 : World :=
  {| user_message_cache := ∅; user_cooldown := ∅;
     user_last_interaction := ∅; tasks := []; trace := [] |}.

(** The completion service answers [reply]; every send is delivered. *)
Definition env_ok (now : Z) (reply : str) : Env :=
  {| utcnow_route := now; utcnow_done := now + 1;
     ChatCompletion_create := fun _ => Ok [reply];
     channel_send := fun _ _ => Ok tt |}.

(** The completion call raises; every send is delivered. *)
Definition env_fail (now : Z) : Env :=
  {| utcnow_route := now; utcnow_done := now + 1;
     ChatCompletion_create := fun _ => Raise (lit "timeout");
     channel_send := fun _ _ => Ok tt |}.

Definition msg (text : string) (with_mention : bool) : Message :=
  {| author_id := 7; author_bot := false; author_roles := [10];
     mentions := if with_mention then [1] else [];
     reference := None; channel_id := 3; guild_roles := [10; 11];
     content := lit text |}.

(** Two successful exchanges, each after the previous cooldown is over:
    user 7 has a history of four turns and no cooldown. *)
Definition world_4turns : World :=
  let w1 := after cfg5 (env_ok 1000000 (lit "r1")) (msg "hi" true) world0 in
  let w1 := loop_step cfg5 3500000 (loop_step cfg5 1000002 w1) in
  let w2 := after cfg5 (env_ok 4000000 (lit "r2")) (msg "more" false) w1 in
  loop_step cfg5 7000000 (loop_step cfg5 4000002 w2).

(** ** More observations *)

(** The number of chunks of a text of [n] characters: [ceil(n / limit)]. *)
Definition ceil_div (n limit : Z) : Z := (n + limit - 1) / limit.

Definition is_ETyping (e : Effect) : bool :=
  match e with ETyping _ => true | _ => false end.

(** A background task that resets a cooldown. *)
Definition is_cooldown_task (t : Task) : bool :=
  match coro t with cooldown_user _ => true | keep_typing _ => false end.

(** The keep-alive task of a conversation in channel [ch], with its status. *)
Definition typing_task_of (ch : Z) (s : Status) : Task :=
  {| coro := keep_typing ch; status := s |}.

(** Several turns of the loop, at the given times. *)
Definition loop_steps (cfg : Config) (nows : list Z) (w : World) : World :=
  foldl (fun w now => loop_step cfg now w) w nows.

(** The keep-alive signals among some effects. *)
Definition typing_signals (es : list Effect) : list Effect :=
  filter (fun e => is_ETyping e = true) es.

(** The reply to a request: the call of line 99 followed by the
    projection of line 105, [response.choices[0].message.content]. *)
Definition completion (env : Env) (messages : list Turn) : Res str :=
  match ChatCompletion_create env messages with
  | Ok [] => Raise (lit "list index out of range")
  | Ok (c :: _) => Ok c
  | Raise e => Raise e
  end.

(** The eviction policy in the words of the specification: one oldest
    item goes when the length before insertion is at or above the cap;
    then the user turn and the assistant turn are appended, in that order. *)
Definition reference_policy (cap : Z) (h : list Turn) (user_turn assistant_turn : Turn)
  : list Turn :=
  (if cap <=? len h then drop 1 h else h) ++ [user_turn; assistant_turn].

(** Did the coroutine return (rather than raise)? *)
Definition is_ok {A : Type} (r : Res A) : bool :=
  match r with Ok _ => true | Raise _ => false end.

(** The message gets past the filters of [on_message]: written by a
    human, addressed to the bot by the Router, and permitted. *)
Definition engaged (cfg : Config) (env : Env) (m : Message) (w : World) : bool :=
  negb (author_bot m)
  && should_respond cfg m (last_interaction w (author_id m)) (utcnow_route env)
  && negb (permission_denied cfg m).

(** After the expiry task of user [uid] has been started by one turn of
    the loop and a later turn comes once [COOLDOWN_TIME] seconds have
    passed, the user's cooldown is off and the user's next message that
    gets past the filters reaches the completion call. *)
Definition admitted_after_expiry (cfg : Config) (uid : Z) (w : World) : Prop :=
  ∀ t0 t1 : Z,
    t0 + timedelta_seconds (COOLDOWN_TIME cfg) ≤ t1 →
    let w3 := loop_step cfg t1 (loop_step cfg t0 w) in
    cooldown w3 uid = 0
    ∧ ∀ (env3 : Env) (m3 : Message),
        author_id m3 = uid →
        engaged cfg env3 m3 w3 = true →
        ∃ es,
          new_effects w3 (after cfg env3 m3 w3)
          = ECreate (build_messages cfg (history w3 uid) (content m3)) :: es.

(** The chunks [send_large_message] sends. *)
Definition chunks_of (text : str) : list str :=
  match split_message text default_limit with
  | Ok chunks => chunks
  | Raise _ => []
  end.

(** ** Specifications of coroutines *)

(** [hoare P c Q E]: from a world in [P], [c] ends in [Q] when it returns
    and in [E] when it raises. *)
Definition hoare {A : Type} (P : World → Prop) (c : M A)
    (Q : A → World → Prop) (E : str → World → Prop) : Prop :=
  ∀ w, P w →
    match c w with
    | (Ok a, w') => Q a w'
    | (Raise e, w') => E e w'
    end.

(** [stable I c]: [c] keeps [I], however it ends. *)
Definition stable {A : Type} (I : World → Prop) (c : M A) : Prop :=
  hoare I c (fun _ => I) (fun _ => I).

(** The elementary updates of the commit path of [chat_with_openai]:
    the cache, the cooldowns, the trace, and one more cooldown task. *)
Record frame_inv (I : World → Prop) : Prop := {
  inv_set_cache : ∀ d w, I w → I (set_cache d w);
  inv_set_cooldown : ∀ d w, I w → I (set_cooldown d w);
  inv_emit : ∀ es w, I w → I (emit es w);
  inv_spawn_cooldown : ∀ uid w, I w →
    I (set_tasks (tasks w ++ [{| coro := cooldown_user uid; status := Ready |}]) w)
}.

(** ** The bot at work *)

(** One step of the running bot: a message is dispatched to [on_message],
    or the loop gives a turn to the background tasks. *)
Inductive step (cfg : Config) : World → World → Prop :=
| step_message (env : Env) (m : Message) (w : World) :
    step cfg w (after cfg env m w)
| step_loop (now : Z) (w : World) :
    step cfg w (loop_step cfg now w).

(** The worlds the bot can be in, from the empty dictionaries of lines
    27-29 on. *)
Inductive reachable (cfg : Config) : World → Prop :=
| reachable_start : reachable cfg world0
| reachable_step (w w' : World) :
    reachable cfg w → step cfg w w' → reachable cfg w'.

(** Histories and cooldowns read the same in both worlds. *)
Definition same_sessions (w w' : World) : Prop :=
  (∀ u, history w' u = history w u) ∧ (∀ u, cooldown w' u = cooldown w u).

Definition is_ECreate (e : Effect) : bool :=
  match e with ECreate _ => true | _ => false end.

(** The number of completion calls among some effects. *)
Definition count_create (es : list Effect) : nat :=
  length (filter (fun e => is_ECreate e = true) es).

(** The roles of [n] complete exchanges. *)
Fixpoint paired_roles (n : nat) : list str :=
  match n with
  | O => []
  | S n' => lit "user" :: lit "assistant" :: paired_roles n'
  end.

(** The roles of a history alternate and end with the assistant: they
    are what is left of some complete exchanges after evictions at the
    front. *)
Definition well_paired (h : list Turn) : Prop :=
  ∃ (n k : nat), map fst h = drop k (paired_roles n).

(** The completion service answers [reply]; the platform refuses every
    message shorter than two characters. *)
Definition env_refusing (now : Z) (reply : str) : Env :=
  {| utcnow_route := now; utcnow_done := now + 1;
     ChatCompletion_create := fun _ => Ok [reply];
     channel_send := fun _ text =>
       if Nat.ltb (length text) 2 then Raise (lit "HTTP 400") else Ok tt |}.

(** A reply of 2001 characters. *)
Definition long_reply : str := replicate 2001 "a"%char.

(** User 8 mentions the bot but holds only role 2, below the required
    role 10. *)
Definition stranger_msg (text : string) : Message :=
  {| author_id := 8; author_bot := false; author_roles := [2];
     mentions := [1]; reference := None; channel_id := 3;
     guild_roles := [10; 11]; content := lit text |}.

(** [MAX_CACHE = 0]: a cache that may hold nothing. *)
Definition cfg0 : Config :=
  {| MAX_CACHE := 0; COOLDOWN_TIME := 2; ROLE_ID := 10;
     SYSTEM_MESSAGE := lit "be kind"; bot_user := 1;
     role_ge := fun r role => role <=? r |}.




(** ** Segmenter *)

Lemma len_nonneg {A : Type} (l : list A) : 0 ≤ len l.
Proof. unfold len. lia. Qed.

Lemma slice_chunk {A : Type} (s : list A) (i limit : Z) :
  0 ≤ i → i < len s → 0 < limit →
  slice s i (i + limit) = take (Z.to_nat limit) (drop (Z.to_nat i) s).
Proof.
  intros Hi Hlt Hlim. unfold slice, slice_bound.
  destruct (Z.ltb_spec i 0) as [?|_]; [lia|].
  destruct (Z.ltb_spec (i + limit) 0) as [?|_]; [lia|].
  rewrite (Z.min_l i) by lia.
  destruct (Z.le_gt_cases (i + limit) (len s)) as [Hin|Hout].
  - rewrite Z.min_l by lia. f_equal. lia.
  - rewrite Z.min_r by lia.
    rewrite !take_ge; [done | |]; rewrite length_drop; unfold len in *; lia.
Qed.

Lemma range_up_chunks (s : str) (limit : Z) :
  0 < limit →
  ∀ (fuel : nat) (i : Z),
    0 ≤ i → (Z.to_nat (len s - i) ≤ fuel)%nat →
    let chunks := map (fun i => slice s i (i + limit))
                      (range_up fuel i (len s) limit) in
    concat chunks = drop (Z.to_nat i) s
    ∧ Forall (fun c => 0 < len c ≤ limit) chunks
    ∧ len chunks = ceil_div (Z.max 0 (len s - i)) limit.
Proof.
  intros Hlim fuel. induction fuel as [|fuel IH]; intros i Hi Hfuel; simpl.
  - assert (len s ≤ i) by lia.
    rewrite drop_ge by (unfold len in *; lia).
    repeat split; [constructor|].
    unfold ceil_div. rewrite Z.max_l by lia.
    symmetry. apply Z.div_small. lia.
  - destruct (Z.ltb_spec i (len s)) as [Hlt|Hge]; simpl.
    + destruct (IH (i + limit)) as (Hcat & Hall & Hlen); [lia | lia |].
      rewrite slice_chunk by lia. repeat split.
      * rewrite Hcat.
        replace (Z.to_nat (i + limit)) with (Z.to_nat i + Z.to_nat limit)%nat by lia.
        rewrite <- drop_drop. apply take_drop.
      * constructor; [|exact Hall].
        unfold len in *. rewrite length_take, length_drop. lia.
      * unfold len in *. simpl length. rewrite length_map in *.
        rewrite Nat2Z.inj_succ, Hlen. unfold ceil_div.
        rewrite (Z.max_r 0 (_ - i)) by lia.
        destruct (Z.le_gt_cases (i + limit) (Z.of_nat (length s))) as [Hin|Hout].
        -- rewrite Z.max_r by lia.
           replace (Z.of_nat (length s) - i + limit - 1)
             with (Z.of_nat (length s) - (i + limit) + limit - 1 + 1 * limit) by lia.
           rewrite Z.div_add by lia. lia.
        -- rewrite Z.max_l by lia.
           rewrite (Z.div_small (0 + limit - 1)) by lia.
           change (Z.succ 0) with 1.
           apply (Z.div_unique _ _ 1 (Z.of_nat (length s) - i - 1)); lia.
    + rewrite drop_ge by (unfold len in *; lia).
      repeat split; [constructor|].
      unfold ceil_div. rewrite Z.max_l by lia.
      symmetry. apply Z.div_small. lia.
Qed.

(** C7.  A non-empty text and a positive limit: [split_message] returns
    exactly [ceil(L / limit)] chunks, each of at most [limit] characters,
    none empty, and their concatenation in order is the text. *)
Theorem split_message_correct (content : str) (limit : Z) :
  0 < len content → 0 < limit →
  ∃ chunks : list str,
    split_message content limit = Ok chunks
    ∧ len chunks = ceil_div (len content) limit
    ∧ Forall (fun c => len c ≤ limit) chunks
    ∧ Forall (fun c => c ≠ []) chunks
    ∧ concat chunks = content.
Proof.
  intros HL Hlim. unfold split_message, range.
  destruct (Z.eqb_spec limit 0) as [?|_]; [lia|].
  destruct (Z.ltb_spec 0 limit) as [_|?]; [|lia].
  eexists. split; [reflexivity|].
  destruct (range_up_chunks content limit Hlim
              (Z.to_nat (len content - 0)) 0) as (Hcat & Hall & Hlen);
    [lia | lia |].
  rewrite (Z.max_r 0 (len content - 0)) in Hlen by lia.
  replace (len content - 0) with (len content) in Hlen at 2 by lia.
  split; [exact Hlen|]. split; [|split; [|exact Hcat]].
  - eapply Forall_impl; [exact Hall|]. simpl. lia.
  - eapply Forall_impl; [exact Hall|]. simpl. intros c Hc ->.
    unfold len in Hc. simpl in Hc. lia.
Qed.

Lemma split_message_correct_witness :
  ∃ chunks : list str,
    split_message (lit "abcdefg") 3 = Ok chunks
    ∧ len chunks = ceil_div (len (lit "abcdefg")) 3
    ∧ Forall (fun c => len c ≤ 3) chunks
    ∧ Forall (fun c => c ≠ []) chunks
    ∧ concat chunks = lit "abcdefg".
Proof. apply (split_message_correct (lit "abcdefg") 3); reflexivity. Defined.

Example split_message_abcdefg :
  split_message (lit "abcdefg") 3 = Ok [lit "abc"; lit "def"; lit "g"].
Proof. reflexivity. Qed.

Example ceil_div_7_3 : ceil_div 7 3 = 3.
Proof. reflexivity. Qed.

(** ** Reasoning about coroutines *)

Lemma hoare_ret {A : Type} (P : World → Prop) (a : A) Q E :
  (∀ w, P w → Q a w) → hoare P (ret a) Q E.
Proof. intros H w Hw. simpl. auto. Qed.

Lemma hoare_raise {A : Type} (P : World → Prop) (e : str)
    (Q : A → World → Prop) E :
  (∀ w, P w → E e w) → hoare P (raise e) Q E.
Proof. intros H w Hw. simpl. auto. Qed.

Lemma hoare_bind {A B : Type} (P : World → Prop) (c : M A) (k : A → M B)
    (R : A → World → Prop) Q E :
  hoare P c R E → (∀ a, hoare (R a) (k a) Q E) → hoare P (bind c k) Q E.
Proof.
  intros Hc Hk w Hw. unfold bind. specialize (Hc w Hw).
  destruct (c w) as [[a|e] w']; [|exact Hc].
  apply (Hk a w' Hc).
Qed.

Lemma hoare_try_except {A : Type} (P : World → Prop) (body : M A)
    (handler : str → M A) (R : str → World → Prop) Q E :
  hoare P body Q R → (∀ e, hoare (R e) (handler e) Q E) →
  hoare P (try_except body handler) Q E.
Proof.
  intros Hb Hh w Hw. unfold try_except. specialize (Hb w Hw).
  destruct (body w) as [[a|e] w']; [exact Hb|].
  apply (Hh e w' Hb).
Qed.

Lemma hoare_weaken {A : Type} (P P' : World → Prop) (c : M A)
    (Q Q' : A → World → Prop) (E E' : str → World → Prop) :
  hoare P' c Q' E' →
  (∀ w, P w → P' w) → (∀ a w, Q' a w → Q a w) → (∀ e w, E' e w → E e w) →
  hoare P c Q E.
Proof.
  intros Hc HP HQ HE w Hw. specialize (Hc w (HP w Hw)).
  destruct (c w) as [[a|e] w']; auto.
Qed.

Lemma stable_bind {A B : Type} (I : World → Prop) (c : M A) (k : A → M B) :
  stable I c → (∀ a, stable I (k a)) → stable I (bind c k).
Proof. intros Hc Hk. apply (hoare_bind _ _ _ (fun _ => I)); assumption. Qed.

Lemma stable_ret {A : Type} (I : World → Prop) (a : A) : stable I (ret a).
Proof. apply hoare_ret. auto. Qed.

Lemma stable_raise {A : Type} (I : World → Prop) (e : str) :
  stable I (raise e : M A).
Proof. apply hoare_raise. auto. Qed.

Lemma stable_for_each {A : Type} (I : World → Prop) (xs : list A)
    (body : A → M unit) :
  (∀ x, stable I (body x)) → stable I (for_each xs body).
Proof.
  intros Hb. induction xs as [|x xs IH]; simpl.
  - apply stable_ret.
  - apply stable_bind; [apply Hb | intros _; exact IH].
Qed.

Section Frame.
Variable cfg : Config.
Variable env : Env.
Variable I : World → Prop.
Hypothesis HI : frame_inv I.

Lemma stable_cache_getitem uid : stable I (cache_getitem uid).
Proof.
  intros w Hw. unfold cache_getitem.
  destruct (defaultdict_getitem _ _ _). by apply inv_set_cache.
Qed.

Lemma stable_cooldown_getitem uid : stable I (cooldown_getitem uid).
Proof.
  intros w Hw. unfold cooldown_getitem.
  destruct (defaultdict_getitem _ _ _). by apply inv_set_cooldown.
Qed.

Lemma stable_cooldown_setitem uid v : stable I (cooldown_setitem uid v).
Proof. intros w Hw. cbn. by apply inv_set_cooldown. Qed.

Lemma stable_cache_popleft uid : stable I (cache_popleft uid).
Proof.
  apply stable_bind; [apply stable_cache_getitem|].
  intros [|x rest]; [apply stable_raise|].
  intros w Hw. cbn. by apply inv_set_cache.
Qed.

Lemma stable_cache_append uid x : stable I (cache_append uid x).
Proof.
  apply stable_bind; [apply stable_cache_getitem|].
  intros h w Hw. cbn. by apply inv_set_cache.
Qed.

Lemma stable_logger_error text : stable I (logger_error text).
Proof. intros w Hw. cbn. by apply inv_emit. Qed.

Lemma stable_send ch text : stable I (send env ch text).
Proof.
  intros w Hw. unfold send.
  destruct (channel_send env ch text); by apply inv_emit.
Qed.

Lemma stable_openai_create msgs : stable I (openai_create env msgs).
Proof.
  intros w Hw. unfold openai_create.
  destruct (ChatCompletion_create env msgs); by apply inv_emit.
Qed.

Lemma stable_first_choice choices : stable I (first_choice choices).
Proof. destruct choices; [apply stable_raise | apply stable_ret]. Qed.

Lemma stable_send_large_message ch text :
  stable I (send_large_message env ch text).
Proof.
  unfold send_large_message. destruct (split_message text default_limit).
  - apply stable_for_each. intros c. apply stable_send.
  - apply stable_raise.
Qed.

Lemma stable_spawn_cooldown uid : stable I (create_task (cooldown_user uid)).
Proof. intros w Hw. cbn. by apply inv_spawn_cooldown. Qed.

(** Lines 105-116, after the keep-alive task was cancelled. *)
Lemma stable_commit (m : Message) (ai_text : str) :
  stable I
    (send_large_message env (channel_id m) ai_text ;;;
     h <- cache_getitem (author_id m) ;;
     (if MAX_CACHE cfg <=? len h then cache_popleft (author_id m) else ret tt) ;;;
     cache_append (author_id m) (lit "user", content m) ;;;
     cache_append (author_id m) (lit "assistant", ai_text) ;;;
     cooldown_setitem (author_id m) (COOLDOWN_TIME cfg) ;;;
     _ <- create_task (cooldown_user (author_id m)) ;;
     ret tt).
Proof.
  apply stable_bind; [apply stable_send_large_message | intros _].
  apply stable_bind; [apply stable_cache_getitem | intros h].
  apply stable_bind; [destruct (_ <=? _);
                      [apply stable_cache_popleft | apply stable_ret] | intros _].
  apply stable_bind; [apply stable_cache_append | intros _].
  apply stable_bind; [apply stable_cache_append | intros _].
  apply stable_bind; [apply stable_cooldown_setitem | intros _].
  apply stable_bind; [apply stable_spawn_cooldown | intros _].
  apply stable_ret.
Qed.

End Frame.

(** *** What a read of a [defaultdict] does *)

Lemma defaultdict_getitem_eq {V : Type} (dflt : V) (d : gmap Z V) (k : Z) :
  defaultdict_getitem dflt d k
  = (default dflt (d !! k), <[k := default dflt (d !! k)]> d).
Proof.
  unfold defaultdict_getitem. destruct (d !! k) as [v|] eqn:Hk; simpl; [|done].
  by rewrite insert_id.
Qed.

Lemma default_lookup_touch {V : Type} (dflt : V) (d : gmap Z V) (k u : Z) :
  default dflt (<[k := default dflt (d !! k)]> d !! u) = default dflt (d !! u).
Proof.
  destruct (decide (k = u)) as [->|Hne].
  - by rewrite lookup_insert_eq.
  - by rewrite lookup_insert_ne.
Qed.

Lemma cooldown_getitem_run (uid : Z) (w : World) :
  cooldown_getitem uid w
  = (Ok (cooldown w uid),
     set_cooldown (<[uid := cooldown w uid]> (user_cooldown w)) w).
Proof. unfold cooldown_getitem. by rewrite defaultdict_getitem_eq. Qed.

Lemma cache_getitem_run (uid : Z) (w : World) :
  cache_getitem uid w
  = (Ok (history w uid),
     set_cache (<[uid := history w uid]> (user_message_cache w)) w).
Proof. unfold cache_getitem. by rewrite defaultdict_getitem_eq. Qed.

Lemma last_interaction_getitem_run (uid : Z) (w : World) :
  last_interaction_getitem uid w
  = (Ok (last_interaction w uid),
     set_last_interaction
       (<[uid := last_interaction w uid]> (user_last_interaction w)) w).
Proof. unfold last_interaction_getitem. by rewrite defaultdict_getitem_eq. Qed.

Lemma emit_emit (es1 es2 : list Effect) (w : World) :
  emit es2 (emit es1 w) = emit (es1 ++ es2) w.
Proof. unfold emit. simpl. by rewrite app_assoc. Qed.

Lemma for_each_send_ok (env : Env) (ch : Z) (chunks : list str) (w : World) :
  Forall (fun c => channel_send env ch c = Ok tt) chunks →
  for_each chunks (send env ch) w = (Ok tt, emit (map (ESend ch) chunks) w).
Proof.
  intros Hall. revert w. induction Hall as [|c chunks Hc _ IH]; intros w.
  - simpl. unfold ret, emit. destruct w; simpl. by rewrite app_nil_r.
  - simpl. unfold bind at 1. unfold send at 1. rewrite Hc, IH.
    by rewrite emit_emit.
Qed.

(** The default limit never makes [range] raise. *)
Lemma split_message_default (text : str) :
  ∃ chunks, split_message text default_limit = Ok chunks.
Proof. unfold split_message, range. simpl. eauto. Qed.

Lemma send_large_message_ok (env : Env) (ch : Z) (text : str) (w : World) :
  Forall (fun c => channel_send env ch c = Ok tt) (chunks_of text) →
  send_large_message env ch text w
  = (Ok tt, emit (map (ESend ch) (chunks_of text)) w).
Proof.
  unfold send_large_message, chunks_of.
  destruct (split_message_default text) as [chunks ->].
  apply for_each_send_ok.
Qed.

Section Orchestrator.
Variable cfg : Config.
Variable env : Env.
Variable m : Message.

Lemma chat_with_openai_unfold (w : World) :
  chat_with_openai cfg env m w
  = let uid := author_id m in
    let w1 := set_cooldown (<[uid := cooldown w uid]> (user_cooldown w)) w in
    if negb (cooldown w uid =? 0)
    then send env (channel_id m) cooldown_notice w1
    else conversation cfg env m w1.
Proof.
  unfold chat_with_openai, bind at 1. rewrite cooldown_getitem_run.
  cbv zeta. destruct (negb _); reflexivity.
Qed.

(** The handler at large: [K] holds outside the conversation, [I h]
    while the keep-alive task [h] may run, [J h] once it was cancelled. *)
Variable K : World → Prop.
Variables I J : nat → World → Prop.
Hypothesis HK_cooldown : ∀ d w, K w → K (set_cooldown d w).
Hypothesis HK_emit : ∀ es w, K w → K (emit es w).
Hypothesis HI : ∀ h, frame_inv (I h).
Hypothesis HJ : ∀ h, frame_inv (J h).
Hypothesis Hspawn : ∀ w, K w →
  I (length (tasks w))
    (set_tasks (tasks w ++ [{| coro := keep_typing (channel_id m);
                               status := Ready |}]) w).
Hypothesis Hcancel : ∀ h w, I h w → J h (task_cancel h w).2.
Hypothesis Hcancel' : ∀ h w, J h w → J h (task_cancel h w).2.

Lemma hoare_task_cancel h :
  hoare (fun w => I h w ∨ J h w) (task_cancel h) (fun _ => J h) (fun _ => J h).
Proof.
  intros w [Hw|Hw].
  - apply (Hcancel h w Hw).
  - apply (Hcancel' h w Hw).
Qed.

(** Lines 103-116: the exchange once the completion call has returned. *)
Lemma hoare_exchange_rest h response :
  hoare (I h)
    (task_cancel h ;;;
     ai_text <- first_choice response ;;
     send_large_message env (channel_id m) ai_text ;;;
     h <- cache_getitem (author_id m) ;;
     (if MAX_CACHE cfg <=? len h then cache_popleft (author_id m) else ret tt) ;;;
     cache_append (author_id m) (lit "user", content m) ;;;
     cache_append (author_id m) (lit "assistant", ai_text) ;;;
     cooldown_setitem (author_id m) (COOLDOWN_TIME cfg) ;;;
     _ <- create_task (cooldown_user (author_id m)) ;;
     ret tt)
    (fun _ => J h) (fun _ => J h).
Proof.
  apply (hoare_bind _ _ _ (fun _ => J h)).
  { eapply hoare_weaken; [apply (hoare_task_cancel h)|..]; simpl; auto. }
  intros _.
  apply stable_bind; [apply stable_first_choice|].
  intros ai_text. apply (stable_commit cfg env (J h) (HJ h)).
Qed.

Lemma hoare_exchange h msgs :
  hoare (I h) (exchange cfg env m h msgs)
        (fun _ => J h) (fun _ w => I h w ∨ J h w).
Proof.
  unfold exchange.
  apply (hoare_bind _ _ _ (fun _ => I h)).
  { eapply hoare_weaken; [apply (stable_openai_create env (I h) (HI h))|..];
      simpl; auto. }
  intros response.
  eapply hoare_weaken; [apply hoare_exchange_rest|..]; simpl; auto.
Qed.

Lemma hoare_on_error h e :
  hoare (fun w => I h w ∨ J h w) (on_error env m h e)
        (fun _ => J h) (fun _ => J h).
Proof.
  unfold on_error.
  apply (hoare_bind _ _ _ (fun _ => J h)); [apply hoare_task_cancel|].
  intros _. apply stable_bind; [apply (stable_logger_error _ (HJ h))|].
  intros _. apply (stable_send env _ (HJ h)).
Qed.

Lemma hoare_conversation :
  hoare K (conversation cfg env m)
        (fun _ w => ∃ h, J h w) (fun _ w => ∃ h, J h w).
Proof.
  unfold conversation.
  apply (hoare_bind _ _ _ (fun h => I h)).
  { intros w Hw. cbn. by apply Hspawn. }
  intros h.
  apply (hoare_bind _ _ _ (fun _ => I h)).
  { intros w Hw. unfold cache_getitem.
    destruct (defaultdict_getitem _ _ _). by apply inv_set_cache. }
  intros cache.
  apply (hoare_try_except _ _ _ (fun _ w => I h w ∨ J h w)).
  - eapply hoare_weaken; [apply hoare_exchange|..]; simpl; eauto.
  - intros e. eapply hoare_weaken; [apply hoare_on_error|..]; simpl; eauto.
Qed.

Lemma hoare_chat_with_openai :
  hoare K (chat_with_openai cfg env m)
        (fun _ w => K w ∨ ∃ h, J h w) (fun _ w => K w ∨ ∃ h, J h w).
Proof.
  intros w Hw. rewrite chat_with_openai_unfold. cbv zeta.
  destruct (negb (cooldown w (author_id m) =? 0)).
  - unfold send. destruct (channel_send _ _ _); cbn; left; auto.
  - pose proof (hoare_conversation _ (HK_cooldown
      (<[author_id m := cooldown w (author_id m)]> (user_cooldown w)) w Hw)) as H.
    destruct (conversation _ _ _ _) as [[[]|e] w']; right; exact H.
Qed.

End Orchestrator.

(** *** [chat_with_openai] never writes [user_last_interaction] *)

Lemma chat_keeps_last_interaction (cfg : Config) (env : Env) (m : Message)
    (w : World) :
  user_last_interaction (chat_with_openai cfg env m w).2 = user_last_interaction w.
Proof.
  set (K := fun w' : World => user_last_interaction w' = user_last_interaction w).
  assert (HK : frame_inv K) by (split; intros; assumption).
  pose proof (hoare_chat_with_openai cfg env m K (fun _ => K) (fun _ => K)) as H.
  specialize (H (inv_set_cooldown _ HK) (inv_emit _ HK) (fun _ => HK) (fun _ => HK)).
  specialize (H (fun w' Hw' => Hw') (fun _ w' Hw' => Hw') (fun _ w' Hw' => Hw')).
  specialize (H w eq_refl).
  destruct (chat_with_openai cfg env m w) as [[[]|e] w']; simpl;
    destruct H as [H|[_ H]]; exact H.
Qed.

(** *** The tasks [chat_with_openai] leaves behind *)

Lemma task_cancel_at (ts e2 : list Task) (ch : Z) (s : Status) (w : World) :
  tasks w = ts ++ typing_task_of ch s :: e2 →
  tasks (task_cancel (length ts) w).2
  = ts ++ typing_task_of ch (cancel_status s) :: e2.
Proof.
  intros Hw. unfold task_cancel. simpl. rewrite Hw.
  replace (length ts) with (length ts + 0)%nat by lia.
  by rewrite alter_app_r.
Qed.

Lemma chat_tasks (cfg : Config) (env : Env) (m : Message) (w : World) :
  let w' := (chat_with_openai cfg env m w).2 in
  (cooldown w (author_id m) ≠ 0 ∧ tasks w' = tasks w)
  ∨ (cooldown w (author_id m) = 0
     ∧ ∃ e2, tasks w' = tasks w ++ typing_task_of (channel_id m) Cancelled :: e2
             ∧ Forall (fun t => is_cooldown_task t = true) e2).
Proof.
  set (ts := tasks w).
  set (K := fun w' : World => tasks w' = ts).
  set (I := fun (s : Status) (h : nat) (w' : World) =>
              h = length ts
              ∧ ∃ e2, tasks w' = ts ++ typing_task_of (channel_id m) s :: e2
                      ∧ Forall (fun t => is_cooldown_task t = true) e2).
  assert (HI : ∀ s h, frame_inv (I s h)).
  { intros s h. split; try (intros; assumption).
    intros uid w1 (Hh & e2 & He2 & Hall). split; [done|].
    exists (e2 ++ [{| coro := cooldown_user uid; status := Ready |}]).
    simpl. rewrite He2. split.
    - by rewrite <- app_assoc.
    - apply Forall_app. split; [done|]. by repeat constructor. }
  assert (Hconv :
    hoare K (conversation cfg env m)
      (fun _ w' => ∃ h, I Cancelled h w') (fun _ w' => ∃ h, I Cancelled h w')).
  { apply (hoare_conversation cfg env m K (I Ready) (I Cancelled));
      [apply HI | apply HI | | |].
    - intros w1 Hw1. split; [by rewrite Hw1|]. exists []. simpl.
      by rewrite Hw1.
    - intros h w1 (-> & e2 & He2 & Hall). split; [done|]. exists e2.
      split; [|done]. by rewrite (task_cancel_at ts e2 (channel_id m) Ready).
    - intros h w1 (-> & e2 & He2 & Hall). split; [done|]. exists e2.
      split; [|done]. by rewrite (task_cancel_at ts e2 (channel_id m) Cancelled). }
  intros w'. subst w'. rewrite chat_with_openai_unfold. cbv zeta.
  destruct (Z.eqb_spec (cooldown w (author_id m)) 0) as [Hcd|Hcd]; simpl negb; cbv iota.
  - right. split; [done|].
    match goal with |- context [conversation _ _ _ ?x] =>
      specialize (Hconv x eq_refl);
      destruct (conversation cfg env m x) as [[[]|e] w'] end;
      destruct Hconv as (h & _ & e2 & He2 & Hall); simpl; eauto.
  - left. split; [done|]. unfold send. by destruct (channel_send _ _ _).
Qed.

(** *** The loop *)

Lemma resume_all_app (cfg : Config) (now : Z) (ts1 ts2 : list Task)
    (cd : gmap Z Z) :
  resume_all cfg now (ts1 ++ ts2) cd
  = let '(ts1', cd1, es1) := resume_all cfg now ts1 cd in
    let '(ts2', cd2, es2) := resume_all cfg now ts2 cd1 in
    (ts1' ++ ts2', cd2, es1 ++ es2).
Proof.
  revert cd. induction ts1 as [|t ts1 IH]; intros cd; simpl.
  - by destruct (resume_all cfg now ts2 cd) as [[ts2' cd2] es2].
  - destruct (resume cfg now t cd) as [[t' cd1] es1].
    rewrite IH.
    destruct (resume_all cfg now ts1 cd1) as [[ts1' cd2] es2].
    destruct (resume_all cfg now ts2 cd2) as [[ts2' cd3] es3].
    by rewrite app_assoc.
Qed.

(** What a task does and becomes does not depend on the cooldowns. *)
Lemma resume_indep (cfg : Config) (now : Z) (t : Task) (cd cd' : gmap Z Z) :
  (resume cfg now t cd).1.1 = (resume cfg now t cd').1.1
  ∧ (resume cfg now t cd).2 = (resume cfg now t cd').2.
Proof.
  unfold resume. destruct t as [[ch|uid] [|until| |]]; simpl;
    try done; by destruct (until <=? now).
Qed.

Lemma resume_all_indep (cfg : Config) (now : Z) (ts : list Task)
    (cd cd' : gmap Z Z) :
  (resume_all cfg now ts cd).1.1 = (resume_all cfg now ts cd').1.1
  ∧ (resume_all cfg now ts cd).2 = (resume_all cfg now ts cd').2.
Proof.
  revert cd cd'. induction ts as [|t ts IH]; intros cd cd'; simpl; [done|].
  destruct (resume_indep cfg now t cd cd') as [Ht He].
  destruct (resume cfg now t cd) as [[t1 cd1] es1].
  destruct (resume cfg now t cd') as [[t1' cd1'] es1']. simpl in Ht, He.
  destruct (IH cd1 cd1') as [Hts Hes].
  destruct (resume_all cfg now ts cd1) as [[ts2 cd2] es2].
  destruct (resume_all cfg now ts cd1') as [[ts2' cd2'] es2'].
  simpl in *. by subst.
Qed.

(** Tasks that are no live keep-alive task stay so and signal nothing. *)
Lemma resume_all_inert (cfg : Config) (now : Z) (ts : list Task) (cd : gmap Z Z) :
  Forall (fun t => is_live_typing t = false) ts →
  Forall (fun t => is_live_typing t = false) (resume_all cfg now ts cd).1.1
  ∧ typing_signals (resume_all cfg now ts cd).2 = [].
Proof.
  intros Hall. revert cd. induction Hall as [|t ts Ht _ IH]; intros cd; simpl.
  - done.
  - assert (is_live_typing (resume cfg now t cd).1.1 = false
            ∧ typing_signals (resume cfg now t cd).2 = []) as [Ht' He'].
    { unfold resume. destruct t as [[ch|uid] [|until| |]]; simpl in *;
        try done; by destruct (until <=? now). }
    destruct (resume cfg now t cd) as [[t1 cd1] es1].
    destruct (IH cd1) as [Hts Hes].
    destruct (resume_all cfg now ts cd1) as [[ts2 cd2] es2]. simpl in *.
    split; [by constructor|].
    unfold typing_signals in *. by rewrite filter_app, He', Hes.
Qed.

Lemma loop_step_trace (cfg : Config) (now : Z) (w : World) :
  trace (loop_step cfg now w)
  = trace w ++ (resume_all cfg now (tasks w) (user_cooldown w)).2.
Proof.
  unfold loop_step.
  by destruct (resume_all cfg now (tasks w) (user_cooldown w)) as [[ts cd] es].
Qed.

Lemma loop_step_tasks (cfg : Config) (now : Z) (w : World) :
  tasks (loop_step cfg now w)
  = (resume_all cfg now (tasks w) (user_cooldown w)).1.1.
Proof.
  unfold loop_step.
  by destruct (resume_all cfg now (tasks w) (user_cooldown w)) as [[ts cd] es].
Qed.

(** Two worlds whose tasks differ only by tasks that are no live
    keep-alive task emit the same keep-alive signals, turn after turn. *)
Lemma loop_steps_signals (cfg : Config) (nows : list Z) :
  ∀ (w w' : World) (added : list Task),
    tasks w' = tasks w ++ added →
    Forall (fun t => is_live_typing t = false) added →
    ∃ es es',
      trace (loop_steps cfg nows w) = trace w ++ es
      ∧ trace (loop_steps cfg nows w') = trace w' ++ es'
      ∧ typing_signals es' = typing_signals es.
Proof.
  induction nows as [|now nows IH]; intros w w' added Htasks Hadded; simpl.
  - exists [], []. by rewrite !app_nil_r.
  - pose proof (loop_step_trace cfg now w) as Htr.
    pose proof (loop_step_trace cfg now w') as Htr'.
    pose proof (loop_step_tasks cfg now w) as Hts.
    pose proof (loop_step_tasks cfg now w') as Hts'.
    rewrite Htasks, resume_all_app in Htr', Hts'.
    destruct (resume_all_indep cfg now (tasks w) (user_cooldown w')
                (user_cooldown w)) as [Hi1 Hi2].
    destruct (resume_all cfg now (tasks w) (user_cooldown w')) as [[ts1 cd1] es1].
    pose proof (resume_all_inert cfg now added cd1 Hadded) as [Hin1 Hin2].
    destruct (resume_all cfg now added cd1) as [[ts2 cd2] es2].
    simpl in *. subst ts1 es1.
    destruct (IH (loop_step cfg now w) (loop_step cfg now w') ts2)
      as (es & es' & He & He' & Hsig); [by rewrite Hts, Hts' | done |].
    eexists _, _. rewrite He, He', Htr, Htr', <- !app_assoc.
    split; [done|]. split; [done|].
    unfold typing_signals in *.
    rewrite !filter_app, Hsig, Hin2. by rewrite app_nil_l.
Qed.

Lemma new_effects_app (w w' : World) (es : list Effect) :
  trace w' = trace w ++ es → new_effects w w' = es.
Proof. intros H. unfold new_effects. rewrite H. apply drop_app_length. Qed.

Lemma live_typing_inert (ts : list Task) :
  Forall (fun t => is_live_typing t = false) ts →
  filter (fun t => is_live_typing t = true) ts = [].
Proof.
  induction 1 as [|t ts Ht _ IH]; [done|].
  rewrite filter_cons_False; [exact IH | congruence].
Qed.

(** C9.  Whatever path [chat_with_openai] takes -- suppressed by the
    cooldown, reply delivered, completion call or delivery failed, even
    when the error notice itself cannot be sent -- the tasks it leaves
    behind are the earlier ones plus tasks among which every keep-alive
    task is cancelled; when the message passed the cooldown check, the
    keep-alive task of this conversation is the first of them.  The
    keep-alive tasks that may still signal are those of before the call,
    and the keep-alive signals the loop emits from then on, turn after
    turn, are those it would have emitted had the handler not run. *)
Theorem keep_typing_cancelled_on_every_path (cfg : Config) (env : Env)
    (m : Message) (w : World) :
  let w' := (chat_with_openai cfg env m w).2 in
  (∃ added,
      tasks w' = tasks w ++ added
      ∧ Forall (fun t => match coro t with
                         | keep_typing _ => status t = Cancelled
                         | cooldown_user _ => True
                         end) added
      ∧ if cooldown w (author_id m) =? 0
        then head added = Some (typing_task_of (channel_id m) Cancelled)
        else added = [])
  ∧ live_typing w' = live_typing w
  ∧ ∀ nows : list Z,
      typing_signals (new_effects w' (loop_steps cfg nows w'))
      = typing_signals (new_effects w (loop_steps cfg nows w)).
Proof.
  intros w'.
  assert (Hadded : ∃ added,
      tasks w' = tasks w ++ added
      ∧ Forall (fun t => match coro t with
                         | keep_typing _ => status t = Cancelled
                         | cooldown_user _ => True
                         end) added
      ∧ if cooldown w (author_id m) =? 0
        then head added = Some (typing_task_of (channel_id m) Cancelled)
        else added = []).
  { destruct (chat_tasks cfg env m w) as [[Hcd Ht]|(Hcd & e2 & Ht & Hall)];
      fold w' in Ht.
    - exists []. rewrite app_nil_r. split; [done|]. split; [constructor|].
      by destruct (Z.eqb_spec (cooldown w (author_id m)) 0).
    - eexists. split; [exact Ht|]. rewrite Hcd. simpl. split; [|done].
      constructor; [done|]. eapply Forall_impl; [exact Hall|].
      intros [[ch|uid] s]; simpl; done. }
  split; [exact Hadded|].
  destruct Hadded as (added & Ht & Hall & _).
  assert (Hinert : Forall (fun t => is_live_typing t = false) added).
  { eapply Forall_impl; [exact Hall|].
    intros [[ch|uid] s]; simpl; [intros ->|]; done. }
  split.
  - unfold live_typing. rewrite Ht, filter_app.
    by rewrite (live_typing_inert added Hinert), app_nil_r.
  - intros nows.
    destruct (loop_steps_signals cfg nows w w' added Ht Hinert)
      as (es & es' & He & He' & Hsig).
    by rewrite (new_effects_app _ _ _ He), (new_effects_app _ _ _ He').
Qed.

(** *** Reads after writes *)

Lemma history_set_cache d w u : history (set_cache d w) u = default [] (d !! u).
Proof. reflexivity. Qed.
Lemma history_set_cooldown d w u : history (set_cooldown d w) u = history w u.
Proof. reflexivity. Qed.
Lemma history_set_last_interaction d w u :
  history (set_last_interaction d w) u = history w u.
Proof. reflexivity. Qed.
Lemma history_set_tasks ts w u : history (set_tasks ts w) u = history w u.
Proof. reflexivity. Qed.
Lemma history_emit es w u : history (emit es w) u = history w u.
Proof. reflexivity. Qed.

Lemma cooldown_set_cooldown d w u : cooldown (set_cooldown d w) u = default 0 (d !! u).
Proof. reflexivity. Qed.
Lemma cooldown_set_cache d w u : cooldown (set_cache d w) u = cooldown w u.
Proof. reflexivity. Qed.
Lemma cooldown_set_last_interaction d w u :
  cooldown (set_last_interaction d w) u = cooldown w u.
Proof. reflexivity. Qed.
Lemma cooldown_set_tasks ts w u : cooldown (set_tasks ts w) u = cooldown w u.
Proof. reflexivity. Qed.
Lemma cooldown_emit es w u : cooldown (emit es w) u = cooldown w u.
Proof. reflexivity. Qed.

Lemma last_interaction_set_last_interaction d w u :
  last_interaction (set_last_interaction d w) u
  = default default_interaction (d !! u).
Proof. reflexivity. Qed.

Lemma default_insert_eq {V : Type} (dflt v : V) (d : gmap Z V) (k : Z) :
  default dflt (<[k := v]> d !! k) = v.
Proof. by rewrite lookup_insert_eq. Qed.

Lemma alter_at_length {A : Type} (f : A → A) (l k : list A) (x : A) :
  alter f (length l) (l ++ x :: k) = l ++ f x :: k.
Proof.
  replace (length l) with (length l + 0)%nat by lia. by rewrite alter_app_r.
Qed.

Create Rewrite HintDb world.
#[local] Hint Rewrite history_set_cache history_set_cooldown
  history_set_last_interaction history_set_tasks history_emit
  cooldown_set_cooldown cooldown_set_cache cooldown_set_last_interaction
  cooldown_set_tasks cooldown_emit
  @default_insert_eq @alter_at_length : world.

(** Normalise the world a handler has reached. *)
Ltac world_simpl :=
  repeat (progress
            (cbn [tasks trace user_message_cache user_cooldown
                  user_last_interaction set_cache set_cooldown
                  set_last_interaction set_tasks emit fst snd
                  coro status cancel_status]
             || autorewrite with world)).

(** *** Running one statement *)

Lemma bind_ok {A B : Type} (c : M A) (k : A → M B) (w w1 : World) (a : A) :
  c w = (Ok a, w1) → bind c k w = k a w1.
Proof. intros H. unfold bind. by rewrite H. Qed.

Lemma bind_raise {A B : Type} (c : M A) (k : A → M B) (w w1 : World) (e : str) :
  c w = (Raise e, w1) → bind c k w = (Raise e, w1).
Proof. intros H. unfold bind. by rewrite H. Qed.

Lemma try_except_ok {A : Type} (body : M A) (handler : str → M A)
    (w w1 : World) (a : A) :
  body w = (Ok a, w1) → try_except body handler w = (Ok a, w1).
Proof. intros H. unfold try_except. by rewrite H. Qed.

Lemma try_except_raise {A : Type} (body : M A) (handler : str → M A)
    (w w1 : World) (e : str) :
  body w = (Raise e, w1) → try_except body handler w = handler e w1.
Proof. intros H. unfold try_except. by rewrite H. Qed.

Lemma create_task_run (c : Coro) (w : World) :
  create_task c w
  = (Ok (length (tasks w)),
     set_tasks (tasks w ++ [{| coro := c; status := Ready |}]) w).
Proof. reflexivity. Qed.

Lemma task_cancel_run (h : nat) (w : World) :
  task_cancel h w
  = (Ok tt,
     set_tasks (alter (fun t => {| coro := coro t;
                                   status := cancel_status (status t) |})
                      h (tasks w)) w).
Proof. reflexivity. Qed.

Lemma logger_error_run (text : str) (w : World) :
  logger_error text w = (Ok tt, emit [ELogError text] w).
Proof. reflexivity. Qed.

Lemma cooldown_setitem_run (uid v : Z) (w : World) :
  cooldown_setitem uid v w
  = (Ok tt, set_cooldown (<[uid := v]> (user_cooldown w)) w).
Proof. reflexivity. Qed.

Lemma openai_create_run (env : Env) (msgs : list Turn) (w : World) :
  openai_create env msgs w
  = (ChatCompletion_create env msgs, emit [ECreate msgs] w).
Proof. reflexivity. Qed.

Lemma send_run (env : Env) (ch : Z) (text : str) (w : World) :
  send env ch text w = (channel_send env ch text, emit [ESend ch text] w).
Proof. reflexivity. Qed.

Lemma cache_popleft_run (uid : Z) (x : Turn) (rest : list Turn) (w : World) :
  history w uid = x :: rest →
  cache_popleft uid w
  = (Ok tt, set_cache (<[uid := rest]> (user_message_cache w)) w).
Proof.
  intros H. unfold cache_popleft.
  rewrite (bind_ok _ _ _ _ _ (cache_getitem_run uid w)), H.
  simpl. by rewrite insert_insert_eq.
Qed.

Lemma cache_popleft_empty (uid : Z) (w : World) :
  history w uid = [] →
  cache_popleft uid w
  = (Raise (lit "pop from an empty deque"),
     set_cache (<[uid := []]> (user_message_cache w)) w).
Proof.
  intros H. unfold cache_popleft.
  by rewrite (bind_ok _ _ _ _ _ (cache_getitem_run uid w)), H.
Qed.

Lemma cache_append_run (uid : Z) (x : Turn) (w : World) :
  cache_append uid x w
  = (Ok tt,
     set_cache (<[uid := history w uid ++ [x]]> (user_message_cache w)) w).
Proof.
  unfold cache_append.
  rewrite (bind_ok _ _ _ _ _ (cache_getitem_run uid w)).
  simpl. by rewrite insert_insert_eq.
Qed.

(** Run the next statement of a coroutine when it cannot raise. *)
Ltac run_step :=
  erewrite bind_ok;
  [| first [ apply cache_getitem_run | apply cooldown_getitem_run
           | apply create_task_run | apply task_cancel_run
           | apply logger_error_run | apply cooldown_setitem_run
           | apply cache_append_run ] ];
  world_simpl.

(** *** The three ways through [chat_with_openai] *)

Lemma touch_default {V : Type} (dflt v : V) (d : gmap Z V) (k u : Z) :
  default dflt (d !! k) = v →
  default dflt (<[k := v]> d !! u) = default dflt (d !! u).
Proof. intros <-. apply default_lookup_touch. Qed.

(** Suppressed by the cooldown: one notice, nothing else. *)
Lemma chat_suppressed (cfg : Config) (env : Env) (m : Message) (w : World) :
  cooldown w (author_id m) ≠ 0 →
  chat_with_openai cfg env m w
  = (channel_send env (channel_id m) cooldown_notice,
     emit [ESend (channel_id m) cooldown_notice] w).
Proof.
  intros Hcd. rewrite chat_with_openai_unfold. cbv zeta.
  destruct (Z.eqb_spec (cooldown w (author_id m)) 0) as [?|_]; [done|].
  simpl negb. cbv iota. rewrite send_run. do 2 f_equal.
  unfold cooldown in *.
  destruct (user_cooldown w !! author_id m) as [v|] eqn:Hv; [|done].
  simpl. rewrite insert_id by done. by destruct w.
Qed.

(** The completion call fails: a log line and a notice; the cache and
    the cooldowns read as before. *)
Lemma chat_failure (cfg : Config) (env : Env) (m : Message) (w : World) (e : str) :
  cooldown w (author_id m) = 0 →
  completion env (build_messages cfg (history w (author_id m)) (content m))
    = Raise e →
  ∃ w',
    chat_with_openai cfg env m w
      = (channel_send env (channel_id m) (error_notice e), w')
    ∧ (∀ u, history w' u = history w u)
    ∧ (∀ u, cooldown w' u = cooldown w u)
    ∧ tasks w' = tasks w ++ [typing_task_of (channel_id m) Cancelled]
    ∧ trace w'
      = trace w
        ++ [ECreate (build_messages cfg (history w (author_id m)) (content m));
            ELogError (error_log e);
            ESend (channel_id m) (error_notice e)].
Proof.
  intros Hcd Hfail. rewrite chat_with_openai_unfold. cbv zeta.
  rewrite Hcd. simpl negb. cbv iota. unfold conversation.
  run_step. run_step.
  unfold completion in Hfail.
  destruct (ChatCompletion_create env _) as [[|c rest]|e'] eqn:Hc;
    [injection Hfail as <- | discriminate | injection Hfail as ->].
  - erewrite try_except_raise.
    2:{ unfold exchange.
        erewrite bind_ok; [|rewrite openai_create_run, Hc; reflexivity].
        run_step. erewrite bind_raise; reflexivity. }
    unfold on_error. run_step. run_step. rewrite send_run. world_simpl.
    eexists. split; [reflexivity|]. world_simpl.
    repeat split; intros; try (by apply touch_default).
    by rewrite <- !app_assoc.
  - erewrite try_except_raise.
    2:{ unfold exchange.
        erewrite bind_raise; [|rewrite openai_create_run, Hc]; reflexivity. }
    unfold on_error. run_step. run_step. rewrite send_run. world_simpl.
    eexists. split; [reflexivity|]. world_simpl.
    repeat split; intros; try (by apply touch_default).
    by rewrite <- !app_assoc.
Qed.

(** The exchange succeeds: the reply is delivered, the cache takes the
    two turns after the eviction of line 109, the cooldown is armed and
    its expiry task created. *)
Lemma chat_success (cfg : Config) (env : Env) (m : Message) (w : World)
    (ai_text : str) :
  let uid := author_id m in
  let h := history w uid in
  cooldown w uid = 0 →
  completion env (build_messages cfg h (content m)) = Ok ai_text →
  Forall (fun c => channel_send env (channel_id m) c = Ok tt) (chunks_of ai_text) →
  (MAX_CACHE cfg ≤ len h → h ≠ []) →
  ∃ w',
    chat_with_openai cfg env m w = (Ok tt, w')
    ∧ history w' uid
      = (if MAX_CACHE cfg <=? len h then drop 1 h else h)
        ++ [(lit "user", content m); (lit "assistant", ai_text)]
    ∧ (∀ u, u ≠ uid → history w' u = history w u)
    ∧ cooldown w' uid = COOLDOWN_TIME cfg
    ∧ (∀ u, u ≠ uid → cooldown w' u = cooldown w u)
    ∧ tasks w'
      = tasks w ++ [typing_task_of (channel_id m) Cancelled;
                    {| coro := cooldown_user uid; status := Ready |}]
    ∧ trace w'
      = trace w ++ ECreate (build_messages cfg h (content m))
                   :: map (ESend (channel_id m)) (chunks_of ai_text).
Proof.
  intros uid h Hcd Hreply Hsent Hpop. subst uid h.
  rewrite chat_with_openai_unfold. cbv zeta.
  rewrite Hcd. simpl negb. cbv iota. unfold conversation.
  run_step. run_step.
  unfold completion in Hreply.
  destruct (ChatCompletion_create env _) as [[|c rest]|e'] eqn:Hc;
    [discriminate | injection Hreply as -> | discriminate].
  destruct (Z.leb_spec (MAX_CACHE cfg) (len (history w (author_id m))))
    as [Hfull|Hroom].
  - destruct (history w (author_id m)) as [|x rest'] eqn:Hh;
      [by specialize (Hpop Hfull)|].
    erewrite try_except_ok.
    2:{ unfold exchange.
        erewrite bind_ok; [|rewrite openai_create_run, Hc; reflexivity].
        run_step. erewrite bind_ok; [|reflexivity].
        erewrite bind_ok; [|by apply send_large_message_ok].
        run_step.
        apply Z.leb_le in Hfull. rewrite Hfull.
        erewrite bind_ok; [|eapply cache_popleft_run; world_simpl; reflexivity].
        world_simpl.
        run_step. run_step. run_step. run_step. reflexivity. }
    eexists. split; [reflexivity|].
    repeat split; intros; world_simpl;
      rewrite ?lookup_insert_ne by done;
      rewrite <- ?app_assoc; done.
  - erewrite try_except_ok.
    2:{ unfold exchange.
        erewrite bind_ok; [|rewrite openai_create_run, Hc; reflexivity].
        run_step. erewrite bind_ok; [|reflexivity].
        erewrite bind_ok; [|by apply send_large_message_ok].
        run_step.
        apply Z.leb_gt in Hroom. rewrite Hroom.
        erewrite bind_ok; [|reflexivity].
        run_step. run_step. run_step. run_step. reflexivity. }
    eexists. split; [reflexivity|].
    repeat split; intros; world_simpl;
      rewrite ?lookup_insert_ne by done;
      rewrite <- ?app_assoc; done.
Qed.

(** Past the cooldown check, the first thing the outside sees is the
    completion call, whatever follows. *)
Lemma chat_first_effect (cfg : Config) (env : Env) (m : Message) (w : World) :
  cooldown w (author_id m) = 0 →
  ∃ es,
    trace (chat_with_openai cfg env m w).2
    = trace w
      ++ ECreate (build_messages cfg (history w (author_id m)) (content m)) :: es.
Proof.
  intros Hcd. rewrite chat_with_openai_unfold. cbv zeta.
  rewrite Hcd. simpl negb. cbv iota. unfold conversation.
  run_step. run_step.
  set (msgs := build_messages cfg (history w (author_id m)) (content m)).
  set (T := fun w' : World => ∃ es, trace w' = trace w ++ ECreate msgs :: es).
  assert (HT : frame_inv T).
  { split; try (intros; assumption).
    intros es w1 [es1 H1]. exists (es1 ++ es). simpl. rewrite H1.
    by rewrite <- app_assoc. }
  assert (HTc : ∀ h w1, T w1 → T (task_cancel h w1).2) by (intros; assumption).
  match goal with |- context [try_except _ _ ?x] => set (w3 := x) end.
  assert (H3 : T (emit [ECreate msgs] w3)).
  { exists []. subst w3. by world_simpl. }
  unfold try_except, exchange, bind at 1. rewrite openai_create_run.
  destruct (ChatCompletion_create env msgs) as [response|e].
  - pose proof (hoare_exchange_rest cfg env m (fun _ => T) (fun _ => T)
                  (fun _ => HT) (fun h => HTc h) (fun h => HTc h)
                  (length (tasks w)) response _ H3) as Hrest.
    match type of Hrest with match ?c with _ => _ end =>
      destruct c as [[[]|e] w4] end; [exact Hrest|].
    pose proof (hoare_on_error env m (fun _ => T) (fun _ => T)
                  (fun _ => HT) (fun h => HTc h) (fun h => HTc h)
                  (length (tasks w)) e w4 (or_introl Hrest)) as Herr.
    destruct (on_error env m (length (tasks w)) e w4) as [[[]|e'] w5];
      exact Herr.
  - pose proof (hoare_on_error env m (fun _ => T) (fun _ => T)
                  (fun _ => HT) (fun h => HTc h) (fun h => HTc h)
                  (length (tasks w)) e _ (or_introl H3)) as Herr.
    destruct (on_error env m (length (tasks w)) e _) as [[[]|e'] w5];
      exact Herr.
Qed.

(** *** [on_message] *)

Lemma on_message_unfold (cfg : Config) (env : Env) (m : Message) (w : World) :
  on_message cfg env m w
  = if author_bot m then (Ok tt, w)
    else
      let uid := author_id m in
      let w1 := set_last_interaction
                  (<[uid := last_interaction w uid]> (user_last_interaction w)) w in
      if negb (should_respond cfg m (last_interaction w uid) (utcnow_route env))
      then (Ok tt, w1)
      else if permission_denied cfg m
           then send env (channel_id m) permission_notice w1
           else
             match chat_with_openai cfg env m w1 with
             | (Ok _, w2) =>
                 (Ok tt,
                  set_last_interaction
                    (<[uid := (utcnow_done env, Some (channel_id m))]>
                       (user_last_interaction w2)) w2)
             | (Raise e, w2) => (Raise e, w2)
             end.
Proof.
  unfold on_message. destruct (author_bot m); [reflexivity|].
  unfold bind at 1. rewrite last_interaction_getitem_run. cbv zeta.
  destruct (negb (should_respond _ _ _ _)); [reflexivity|].
  destruct (permission_denied cfg m); [reflexivity|].
  unfold bind. by destruct (chat_with_openai _ _ _ _) as [[[]|e] w2].
Qed.

(** What [on_message] adds around [chat_with_openai] for a message that
    gets past its filters. *)
Lemma on_message_engaged (cfg : Config) (env : Env) (m : Message) (w : World) :
  engaged cfg env m w = true →
  let uid := author_id m in
  let w1 := set_last_interaction
              (<[uid := last_interaction w uid]> (user_last_interaction w)) w in
  let c := chat_with_openai cfg env m w1 in
  let w' := after cfg env m w in
  (on_message cfg env m w).1 = c.1
  ∧ (∀ u, history w' u = history c.2 u)
  ∧ (∀ u, cooldown w' u = cooldown c.2 u)
  ∧ tasks w' = tasks c.2
  ∧ trace w' = trace c.2
  ∧ (∀ u, last_interaction w' u
          = if is_ok c.1 && bool_decide (u = uid)
            then (utcnow_done env, Some (channel_id m))
            else last_interaction w u).
Proof.
  intros Heng uid w1 c w'. unfold engaged in Heng.
  apply andb_prop in Heng as [[Hbot Hroute]%andb_prop Hperm].
  apply negb_true_iff in Hbot, Hperm.
  subst w'. unfold after. rewrite on_message_unfold.
  rewrite Hbot. cbv zeta. rewrite Hroute, Hperm. simpl negb. cbv iota.
  fold uid. fold w1. fold c.
  pose proof (chat_keeps_last_interaction cfg env m w1) as Hli. fold c in Hli.
  destruct c as [[[]|e] w2]; simpl in *.
  - repeat split. intros u. unfold last_interaction. simpl. rewrite Hli.
    case_bool_decide as Hu.
    + subst u. by rewrite lookup_insert_eq.
    + rewrite !lookup_insert_ne by done. done.
  - repeat split. intros u. unfold last_interaction. rewrite Hli. simpl.
    apply default_lookup_touch.
Qed.

(** A message stopped by a filter of [on_message] leaves every record as
    it reads and starts no conversation. *)
Lemma on_message_not_engaged (cfg : Config) (env : Env) (m : Message) (w : World) :
  engaged cfg env m w = false →
  let w' := after cfg env m w in
  (∀ u, last_interaction w' u = last_interaction w u)
  ∧ (∀ u, history w' u = history w u)
  ∧ (∀ u, cooldown w' u = cooldown w u)
  ∧ tasks w' = tasks w.
Proof.
  intros Hno w'. subst w'. unfold engaged in Hno. unfold after.
  rewrite on_message_unfold.
  destruct (author_bot m); [done|]. cbv zeta.
  destruct (should_respond _ _ _ _); simpl in *.
  - destruct (permission_denied cfg m); [|done]. rewrite send_run. simpl.
    repeat split. intros u. unfold last_interaction. simpl.
    apply default_lookup_touch.
  - repeat split. intros u. unfold last_interaction. simpl.
    apply default_lookup_touch.
Qed.

(** ** Router *)

Lemma should_respond_iff (cfg : Config) (m : Message) (last_inter : Interaction)
    (now : Z) :
  should_respond cfg m last_inter now = true
  ↔ shouldEngage_spec (bot_user cfg ∈ mentions m)
      (reference m = Some (bot_user cfg)) last_inter now (channel_id m).
Proof.
  unfold should_respond, shouldEngage_spec, mentioned, replied_to_bot,
    within_time, same_channel.
  rewrite !orb_true_iff, andb_true_iff, !bool_decide_eq_true, Z.leb_le.
  destruct (reference m) as [a|]; [rewrite bool_decide_eq_true|];
    intuition congruence.
Qed.

(** C3.  The decision of line 65 is exactly the disjunction of the
    specification: a mention, or a reply to the bot, or a last
    interaction at most 120 seconds old in the channel of the message.
    So a mention or a reply engages whatever the last interaction is;
    without them, a last interaction 119 seconds old in the same channel
    engages and one 121 seconds old does not. *)
Theorem router_decision (cfg : Config) (m : Message) (last_inter : Interaction)
    (now : Z) :
  (should_respond cfg m last_inter now = true
   ↔ shouldEngage_spec (bot_user cfg ∈ mentions m)
       (reference m = Some (bot_user cfg)) last_inter now (channel_id m))
  ∧ (bot_user cfg ∈ mentions m ∨ reference m = Some (bot_user cfg) →
     should_respond cfg m last_inter now = true)
  ∧ should_respond cfg m (now - timedelta_seconds 119, Some (channel_id m)) now
    = true
  ∧ (bot_user cfg ∉ mentions m → reference m ≠ Some (bot_user cfg) →
     ∀ channel, should_respond cfg m (now - timedelta_seconds 121, channel) now
                = false).
Proof.
  split; [apply should_respond_iff|]. split; [|split].
  - intros H. apply should_respond_iff. unfold shouldEngage_spec. tauto.
  - apply should_respond_iff. right. right. simpl.
    unfold timedelta_seconds. split; [lia|done].
  - intros Hm Hr channel. apply not_true_is_false. intros H.
    apply should_respond_iff in H as [?|[?|[Hold _]]]; [done|done|].
    simpl in Hold. unfold timedelta_seconds in Hold. lia.
Qed.

(** ** Segmenter on the empty text *)

(** C10.  On the empty text [split_message] returns no chunk at all
    (with the default limit, and with every limit [range] accepts), so
    [send_large_message] sends nothing: it returns and leaves the world,
    trace included, as it was. *)
Theorem split_message_empty (env : Env) (channel : Z) (w : World) :
  split_message [] default_limit = Ok []
  ∧ (∀ limit, split_message [] limit
              = if limit =? 0 then Raise (lit "range() arg 3 must not be zero")
                else Ok [])
  ∧ send_large_message env channel [] w = (Ok tt, w).
Proof.
  split; [reflexivity|]. split; [|reflexivity].
  intros limit. unfold split_message, range.
  destruct (limit =? 0); [reflexivity|].
  by destruct (0 <? limit).
Qed.

(** ** The request *)

Lemma build_messages_eq (cfg : Config) (cache : list Turn) (new_content : str) :
  build_messages cfg cache new_content
  = (lit "system", SYSTEM_MESSAGE cfg) :: cache ++ [(lit "user", new_content)].
Proof.
  unfold build_messages.
  assert (Hloop : ∀ acc : list Turn,
    foldl (fun msgs '(role_, content_) => msgs ++ [(role_, content_)]) acc cache
    = acc ++ cache).
  { induction cache as [|[r c] cache IH]; intros acc; simpl.
    - by rewrite app_nil_r.
    - rewrite IH. by rewrite <- app_assoc. }
  by rewrite Hloop.
Qed.

(** C8.  For every message that passes the cooldown check, the request
    sent to the completion service is the system instruction, then the
    turns stored for the author in their stored order, then the new user
    turn; it is the first thing the handler does towards the outside. *)
Theorem request_composition (cfg : Config) (env : Env) (m : Message) (w : World) :
  cooldown w (author_id m) = 0 →
  ∃ es,
    new_effects w (chat_with_openai cfg env m w).2
    = ECreate ((lit "system", SYSTEM_MESSAGE cfg)
               :: history w (author_id m) ++ [(lit "user", content m)])
      :: es.
Proof.
  intros Hcd. destruct (chat_first_effect cfg env m w Hcd) as [es Hes].
  exists es. rewrite <- build_messages_eq. by apply new_effects_app.
Qed.

Lemma request_composition_witness :
  ∃ es,
    new_effects world_4turns
      (chat_with_openai cfg5 (env_ok 8000000 (lit "r3")) (msg "third" true)
         world_4turns).2
    = ECreate ((lit "system", lit "be kind")
               :: history world_4turns 7 ++ [(lit "user", lit "third")])
      :: es.
Proof.
  apply (request_composition cfg5 (env_ok 8000000 (lit "r3")) (msg "third" true)
           world_4turns).
  vm_compute. reflexivity.
Defined.

(** ** The history *)

(** C6.  When an exchange succeeds -- the message passes the cooldown
    check, the completion service replies, every chunk of the reply is
    delivered and line 110 has an item to evict if it must evict -- the
    handler returns and the author's history is the former one, less its
    oldest item if its length was at or above [MAX_CACHE], followed by
    the new user turn and then the assistant turn. *)
Theorem eviction_policy (cfg : Config) (env : Env) (m : Message) (w : World)
    (ai_text : str) :
  cooldown w (author_id m) = 0 →
  completion env (build_messages cfg (history w (author_id m)) (content m))
    = Ok ai_text →
  Forall (fun c => channel_send env (channel_id m) c = Ok tt) (chunks_of ai_text) →
  (MAX_CACHE cfg ≤ len (history w (author_id m)) → history w (author_id m) ≠ []) →
  (chat_with_openai cfg env m w).1 = Ok tt
  ∧ history (chat_with_openai cfg env m w).2 (author_id m)
    = reference_policy (MAX_CACHE cfg) (history w (author_id m))
        (lit "user", content m) (lit "assistant", ai_text).
Proof.
  intros Hcd Hreply Hsent Hpop.
  destruct (chat_success cfg env m w ai_text Hcd Hreply Hsent Hpop)
    as (w' & -> & Hh & _).
  split; [done|]. exact Hh.
Qed.

Lemma eviction_policy_witness :
  let m := msg "third" true in
  let env := env_ok 8000000 (lit "r3") in
  (chat_with_openai cfg5 env m world_4turns).1 = Ok tt
  ∧ history (chat_with_openai cfg5 env m world_4turns).2 7
    = reference_policy 5 (history world_4turns 7)
        (lit "user", lit "third") (lit "assistant", lit "r3").
Proof.
  apply (eviction_policy cfg5 (env_ok 8000000 (lit "r3")) (msg "third" true)
           world_4turns (lit "r3")).
  - vm_compute. reflexivity.
  - vm_compute. reflexivity.
  - vm_compute. repeat constructor.
  - vm_compute. discriminate.
Defined.

(** Once the history has [MAX_CACHE - 1] turns or more, every
    successful exchange leaves it longer than [MAX_CACHE]. *)
Lemma history_outgrows_cap (cfg : Config) (env : Env) (m : Message) (w : World)
    (ai_text : str) :
  cooldown w (author_id m) = 0 →
  completion env (build_messages cfg (history w (author_id m)) (content m))
    = Ok ai_text →
  Forall (fun c => channel_send env (channel_id m) c = Ok tt) (chunks_of ai_text) →
  (MAX_CACHE cfg ≤ len (history w (author_id m)) → history w (author_id m) ≠ []) →
  MAX_CACHE cfg - 1 ≤ len (history w (author_id m)) →
  MAX_CACHE cfg < len (history (chat_with_openai cfg env m w).2 (author_id m)).
Proof.
  intros Hcd Hreply Hsent Hpop Hnear.
  destruct (chat_success cfg env m w ai_text Hcd Hreply Hsent Hpop)
    as (w' & -> & Hh & _).
  simpl. rewrite Hh. unfold len in *. rewrite length_app. simpl.
  destruct (Z.leb_spec (MAX_CACHE cfg)
              (Z.of_nat (length (history w (author_id m))))) as [Hfull|Hroom].
  - rewrite length_drop.
    destruct (history w (author_id m)) as [|x rest]; [by specialize (Hpop Hfull)|].
    simpl in *. lia.
  - lia.
Qed.

(** C1.  With [MAX_CACHE = 5] a user whose history holds four turns
    completes one more exchange: line 109 sees a length below the cap
    and evicts nothing, lines 111-112 append two turns, and the stored
    history has six turns, one more than the cap.  One exchange later it
    has seven. *)
Theorem history_exceeds_cap :
  let w1 := after cfg5 (env_ok 8000000 (lit "r3")) (msg "third" true)
              world_4turns in
  let w2 := after cfg5 (env_ok 12000000 (lit "r4")) (msg "fourth" true)
              (loop_steps cfg5 [8000002; 11000000] w1) in
  MAX_CACHE cfg5 = 5
  ∧ len (history world_4turns 7) = 4
  ∧ len (history w1 7) = 6
  ∧ len (history w2 7) = 7.
Proof. vm_compute. done. Qed.

(** ** Failure *)

(** C4.  A message that gets past the filters and the cooldown check and
    whose completion call fails (the call raises, or its response has no
    choice): every user's history and cooldown read as before, no
    expiry task was created, and the next message of the same author
    that gets past the filters reaches the completion call instead of
    the cooldown notice. *)
Theorem failure_keeps_history_and_cooldown (cfg : Config) (env : Env)
    (m : Message) (w : World) (e : str) :
  engaged cfg env m w = true →
  cooldown w (author_id m) = 0 →
  completion env (build_messages cfg (history w (author_id m)) (content m))
    = Raise e →
  let w' := after cfg env m w in
  (∀ u, history w' u = history w u)
  ∧ (∀ u, cooldown w' u = cooldown w u)
  ∧ tasks w' = tasks w ++ [typing_task_of (channel_id m) Cancelled]
  ∧ ∀ (env2 : Env) (m2 : Message),
      author_id m2 = author_id m →
      engaged cfg env2 m2 w' = true →
      ∃ es,
        new_effects w' (after cfg env2 m2 w')
        = ECreate (build_messages cfg (history w (author_id m)) (content m2))
          :: es.
Proof.
  intros Heng Hcd Hfail w'.
  destruct (on_message_engaged cfg env m w Heng)
    as (_ & Hh & Hc & Ht & _). fold w' in Hh, Hc, Ht.
  match type of Ht with _ = tasks (chat_with_openai _ _ _ ?x).2 =>
    destruct (chat_failure cfg env m x e Hcd Hfail)
      as (w2 & Hrun & Hh2 & Hc2 & Ht2 & _) end.
  rewrite Hrun in Hh, Hc, Ht. simpl in Hh, Hc, Ht.
  assert (Hhist : ∀ u, history w' u = history w u).
  { intros u. by rewrite Hh, Hh2. }
  assert (Hcool : ∀ u, cooldown w' u = cooldown w u).
  { intros u. by rewrite Hc, Hc2. }
  split; [exact Hhist|]. split; [exact Hcool|].
  split; [by rewrite Ht, Ht2|].
  intros env2 m2 Hsame Heng2.
  destruct (on_message_engaged cfg env2 m2 w' Heng2) as (_ & _ & _ & _ & Htr & _).
  match type of Htr with _ = trace (chat_with_openai _ _ _ ?x).2 =>
    destruct (chat_first_effect cfg env2 m2 x) as [es Hes] end.
  { rewrite Hsame. change (cooldown w' (author_id m) = 0). by rewrite Hcool. }
  exists es. apply new_effects_app. rewrite Htr, Hes. simpl.
  rewrite Hsame. change (history (set_last_interaction _ w') (author_id m))
    with (history w' (author_id m)). by rewrite Hhist.
Qed.

Lemma failure_keeps_history_and_cooldown_witness :
  let env := env_fail 8000000 in
  let m := msg "third" true in
  let w' := after cfg5 env m world_4turns in
  (∀ u, history w' u = history world_4turns u)
  ∧ (∀ u, cooldown w' u = cooldown world_4turns u)
  ∧ tasks w' = tasks world_4turns ++ [typing_task_of 3 Cancelled]
  ∧ ∀ (env2 : Env) (m2 : Message),
      author_id m2 = 7 →
      engaged cfg5 env2 m2 w' = true →
      ∃ es,
        new_effects w' (after cfg5 env2 m2 w')
        = ECreate (build_messages cfg5 (history world_4turns 7) (content m2))
          :: es.
Proof.
  apply (failure_keeps_history_and_cooldown cfg5 (env_fail 8000000)
           (msg "third" true) world_4turns (lit "timeout")).
  - vm_compute. reflexivity.
  - vm_compute. reflexivity.
  - vm_compute. reflexivity.
Defined.

(** ** Cooldown *)

Lemma loop_step_cooldown (cfg : Config) (now : Z) (w : World) (u : Z) :
  cooldown (loop_step cfg now w) u
  = default 0 ((resume_all cfg now (tasks w) (user_cooldown w)).1.2 !! u).
Proof.
  unfold loop_step.
  by destruct (resume_all cfg now (tasks w) (user_cooldown w)) as [[ts cd] es].
Qed.

(** The expiry task created last runs last: one turn starts its sleep,
    a turn after the delay ends it with [user_cooldown[uid] = 0]. *)
Lemma cooldown_expires (cfg : Config) (t0 t1 : Z) (w : World) (ts : list Task)
    (uid : Z) :
  tasks w = ts ++ [{| coro := cooldown_user uid; status := Ready |}] →
  t0 + timedelta_seconds (COOLDOWN_TIME cfg) ≤ t1 →
  cooldown (loop_step cfg t1 (loop_step cfg t0 w)) uid = 0.
Proof.
  intros Hts Hlate.
  pose proof (loop_step_tasks cfg t0 w) as H1.
  rewrite Hts, resume_all_app in H1.
  destruct (resume_all cfg t0 ts (user_cooldown w)) as [[ts1 cd1] es1].
  simpl in H1.
  rewrite loop_step_cooldown, H1, resume_all_app.
  destruct (resume_all cfg t1 ts1 _) as [[ts2 cd2] es2]. simpl.
  unfold resume. simpl.
  destruct (Z.leb_spec (t0 + timedelta_seconds (COOLDOWN_TIME cfg)) t1); [|lia].
  simpl. by rewrite lookup_insert_eq.
Qed.

Lemma admitted_after_expiry_intro (cfg : Config) (uid : Z) (w : World)
    (ts : list Task) :
  tasks w = ts ++ [{| coro := cooldown_user uid; status := Ready |}] →
  admitted_after_expiry cfg uid w.
Proof.
  intros Hts t0 t1 Hlate w3.
  pose proof (cooldown_expires cfg t0 t1 w ts uid Hts Hlate) as Hcd.
  fold w3 in Hcd. split; [exact Hcd|].
  intros env3 m3 Hsame Heng.
  destruct (on_message_engaged cfg env3 m3 w3 Heng) as (_ & _ & _ & _ & Htr & _).
  match type of Htr with _ = trace (chat_with_openai _ _ _ ?x).2 =>
    destruct (chat_first_effect cfg env3 m3 x) as [es Hes] end.
  { rewrite Hsame. exact Hcd. }
  exists es. apply new_effects_app. rewrite Htr, Hes. simpl. by rewrite Hsame.
Qed.

(** C5.  After a successful exchange the author's cooldown holds
    [COOLDOWN_TIME].  If that is not zero, the author's next message
    that gets past the filters -- by a mention or otherwise -- is
    answered by the cooldown notice alone: no completion call, no change
    to any history or cooldown.  Whether or not such a message came,
    once the loop has started the expiry task and comes round again
    [COOLDOWN_TIME] seconds later, the cooldown is zero and the author's
    next message reaches the completion call. *)
Theorem cooldown_gating (cfg : Config) (env : Env) (m : Message) (w : World)
    (ai_text : str) :
  COOLDOWN_TIME cfg ≠ 0 →
  engaged cfg env m w = true →
  cooldown w (author_id m) = 0 →
  completion env (build_messages cfg (history w (author_id m)) (content m))
    = Ok ai_text →
  Forall (fun c => channel_send env (channel_id m) c = Ok tt) (chunks_of ai_text) →
  (MAX_CACHE cfg ≤ len (history w (author_id m)) → history w (author_id m) ≠ []) →
  let uid := author_id m in
  let w1 := after cfg env m w in
  cooldown w1 uid = COOLDOWN_TIME cfg
  ∧ admitted_after_expiry cfg uid w1
  ∧ ∀ (env2 : Env) (m2 : Message),
      author_id m2 = uid →
      engaged cfg env2 m2 w1 = true →
      let w2 := after cfg env2 m2 w1 in
      new_effects w1 w2 = [ESend (channel_id m2) cooldown_notice]
      ∧ (∀ u, history w2 u = history w1 u)
      ∧ (∀ u, cooldown w2 u = cooldown w1 u)
      ∧ admitted_after_expiry cfg uid w2.
Proof.
  intros Harm Heng Hcd Hreply Hsent Hpop uid w1. subst uid.
  destruct (on_message_engaged cfg env m w Heng)
    as (_ & Hh & Hc & Ht & _). fold w1 in Hh, Hc, Ht.
  match type of Ht with _ = tasks (chat_with_openai _ _ _ ?x).2 =>
    destruct (chat_success cfg env m x ai_text Hcd Hreply Hsent Hpop)
      as (w' & Hrun & _ & _ & Hc' & _ & Ht' & _) end.
  rewrite Hrun in Hh, Hc, Ht. simpl in Hh, Hc, Ht.
  assert (Harmed : cooldown w1 (author_id m) = COOLDOWN_TIME cfg)
    by (by rewrite Hc, Hc').
  assert (Htasks : tasks w1
                   = (tasks w ++ [typing_task_of (channel_id m) Cancelled])
                     ++ [{| coro := cooldown_user (author_id m);
                            status := Ready |}]).
  { rewrite Ht, Ht'. simpl. by rewrite <- app_assoc. }
  split; [exact Harmed|].
  split; [exact (admitted_after_expiry_intro cfg _ w1 _ Htasks)|].
  intros env2 m2 Hsame Heng2 w2.
  destruct (on_message_engaged cfg env2 m2 w1 Heng2)
    as (_ & Hh2 & Hc2 & Ht2 & Htr2 & _). fold w2 in Hh2, Hc2, Ht2, Htr2.
  rewrite chat_suppressed in Hh2, Hc2, Ht2, Htr2
    by (rewrite Hsame; change (cooldown w1 (author_id m) ≠ 0); by rewrite Harmed).
  simpl in Hh2, Hc2, Ht2, Htr2.
  split; [by apply new_effects_app|].
  split; [exact Hh2|]. split; [exact Hc2|].
  apply (admitted_after_expiry_intro cfg (author_id m) w2
           (tasks w ++ [typing_task_of (channel_id m) Cancelled])).
  by rewrite Ht2.
Qed.

Lemma cooldown_gating_witness :
  let env := env_ok 8000000 (lit "r3") in
  let m := msg "third" true in
  let w1 := after cfg5 env m world_4turns in
  cooldown w1 7 = 2
  ∧ admitted_after_expiry cfg5 7 w1
  ∧ ∀ (env2 : Env) (m2 : Message),
      author_id m2 = 7 →
      engaged cfg5 env2 m2 w1 = true →
      let w2 := after cfg5 env2 m2 w1 in
      new_effects w1 w2 = [ESend (channel_id m2) cooldown_notice]
      ∧ (∀ u, history w2 u = history w1 u)
      ∧ (∀ u, cooldown w2 u = cooldown w1 u)
      ∧ admitted_after_expiry cfg5 7 w2.
Proof.
  apply (cooldown_gating cfg5 (env_ok 8000000 (lit "r3")) (msg "third" true)
           world_4turns (lit "r3")).
  - vm_compute. discriminate.
  - vm_compute. reflexivity.
  - vm_compute. reflexivity.
  - vm_compute. reflexivity.
  - vm_compute. repeat constructor.
  - vm_compute. discriminate.
Defined.

(** ** Last interaction *)

(** C2 does not hold as stated: a failed completion call does not leave
    the author's last-interaction record unchanged.  User 7, never seen
    before, mentions the bot at time 1000000 in channel 3; the
    completion call raises, the error notice is sent, and line 75 sets
    the record from its default to time 1000001 in channel 3. *)
Lemma last_interaction_changes_on_failure :
  ¬ (∀ (cfg : Config) (env : Env) (m : Message) (w : World) (e : str),
       engaged cfg env m w = true →
       cooldown w (author_id m) = 0 →
       completion env (build_messages cfg (history w (author_id m)) (content m))
         = Raise e →
       last_interaction (after cfg env m w) (author_id m)
       = last_interaction w (author_id m)).
Proof.
  intros H.
  specialize (H cfg5 (env_fail 1000000) (msg "hi" true) world0 (lit "timeout")).
  assert (Hold : last_interaction world0 7 = (datetime_min, None))
    by reflexivity.
  assert (Hnew : last_interaction
                   (after cfg5 (env_fail 1000000) (msg "hi" true) world0) 7
                 = (1000001, Some 3))
    by (vm_compute; reflexivity).
  simpl author_id in H. rewrite Hold, Hnew in H.
  assert (Heq : (1000001, Some 3) = (datetime_min, None) :> Interaction).
  { apply H; vm_compute; reflexivity. }
  discriminate Heq.
Qed.

(** C2, as the code has it.  After [on_message], the last-interaction
    record of a user is the current time and channel exactly when the
    user is the author of a message that got past the filters (not from
    a bot, engaged by the Router, permitted) and [chat_with_openai]
    returned; every other record reads as before.  [chat_with_openai]
    returns not only after a delivered reply: suppressed by the
    cooldown, it returns what sending the cooldown notice returns, and
    after a failed completion call, what sending the error notice
    returns. *)
Theorem last_interaction_set_when_chat_returns (cfg : Config) (env : Env)
    (m : Message) (w : World) :
  let uid := author_id m in
  let r := (on_message cfg env m w).1 in
  let w' := after cfg env m w in
  (∀ u, last_interaction w' u
        = if engaged cfg env m w && is_ok r && bool_decide (u = uid)
          then (utcnow_done env, Some (channel_id m))
          else last_interaction w u)
  ∧ (engaged cfg env m w = true → cooldown w uid ≠ 0 →
     r = channel_send env (channel_id m) cooldown_notice)
  ∧ (engaged cfg env m w = true → cooldown w uid = 0 →
     ∀ e, completion env (build_messages cfg (history w uid) (content m))
          = Raise e →
          r = channel_send env (channel_id m) (error_notice e))
  ∧ (engaged cfg env m w = true → cooldown w uid = 0 →
     ∀ ai_text,
       completion env (build_messages cfg (history w uid) (content m))
       = Ok ai_text →
       Forall (fun c => channel_send env (channel_id m) c = Ok tt)
              (chunks_of ai_text) →
       (MAX_CACHE cfg ≤ len (history w uid) → history w uid ≠ []) →
       r = Ok tt).
Proof.
  intros uid r w'. subst uid r w'.
  destruct (engaged cfg env m w) eqn:Heng.
  - destruct (on_message_engaged cfg env m w Heng) as (Hr & _ & _ & _ & _ & Hli).
    rewrite Hr. split; [exact Hli|]. split; [|split].
    + intros _ Hcd. by rewrite chat_suppressed.
    + intros _ Hcd e Hfail.
      match goal with |- (chat_with_openai _ _ _ ?x).1 = _ =>
        destruct (chat_failure cfg env m x e Hcd Hfail) as (w2 & -> & _) end.
      done.
    + intros _ Hcd ai_text Hreply Hsent Hpop.
      match goal with |- (chat_with_openai _ _ _ ?x).1 = _ =>
        destruct (chat_success cfg env m x ai_text Hcd Hreply Hsent Hpop)
          as (w2 & -> & _) end.
      done.
  - destruct (on_message_not_engaged cfg env m w Heng) as (Hli & _).
    split; [exact Hli|]. repeat split; discriminate.
Qed.

Lemma last_interaction_set_when_chat_returns_witness :
  last_interaction
    (after cfg5 (env_fail 8000000) (msg "third" true) world_4turns) 7
  = (8000001, Some 3).
Proof.
  pose proof (last_interaction_set_when_chat_returns cfg5 (env_fail 8000000)
                (msg "third" true) world_4turns) as (Hli & _ & Hfail & _).
  rewrite (Hli 7).
  rewrite (Hfail eq_refl eq_refl (lit "timeout") eq_refl).
  reflexivity.
Defined.

(** * More of the handlers *)

(** ** The other ways through [chat_with_openai] *)

Lemma sent_or_not (env : Env) (ch : Z) (chunks : list str) :
  Forall (fun c => channel_send env ch c = Ok tt) chunks
  ∨ ∃ pre c post e,
      chunks = pre ++ c :: post
      ∧ Forall (fun c => channel_send env ch c = Ok tt) pre
      ∧ channel_send env ch c = Raise e.
Proof.
  induction chunks as [|c chunks IH]; [by left|].
  destruct (channel_send env ch c) as [[]|e] eqn:Hc.
  - destruct IH as [Hall|(pre & c' & post & e & -> & Hpre & He)].
    + left. by constructor.
    + right. exists (c :: pre), c', post, e. repeat split; [|done].
      by constructor.
  - right. exists [], c, chunks, e. repeat split; [constructor|done].
Qed.

Lemma for_each_send_raise (env : Env) (ch : Z) (pre post : list str) (c e : str)
    (w : World) :
  Forall (fun c => channel_send env ch c = Ok tt) pre →
  channel_send env ch c = Raise e →
  for_each (pre ++ c :: post) (send env ch) w
  = (Raise e, emit (map (ESend ch) (pre ++ [c])) w).
Proof.
  intros Hpre Hc. revert w. induction Hpre as [|p pre Hp _ IH]; intros w.
  - simpl. unfold bind, send at 1. by rewrite Hc.
  - simpl. unfold bind at 1. unfold send at 1. rewrite Hp, IH.
    by rewrite emit_emit.
Qed.

Lemma send_large_message_raise (env : Env) (ch : Z) (text : str)
    (pre post : list str) (c e : str) (w : World) :
  chunks_of text = pre ++ c :: post →
  Forall (fun c => channel_send env ch c = Ok tt) pre →
  channel_send env ch c = Raise e →
  send_large_message env ch text w
  = (Raise e, emit (map (ESend ch) (pre ++ [c])) w).
Proof.
  unfold send_large_message, chunks_of.
  destruct (split_message_default text) as [chunks ->]. intros ->.
  apply for_each_send_raise.
Qed.

(** A chunk of the reply cannot be delivered: the chunks before it were
    sent, the exception is logged and notified, nothing is stored. *)
Lemma chat_delivery_failure (cfg : Config) (env : Env) (m : Message) (w : World)
    (ai_text : str) (pre post : list str) (c e : str) :
  cooldown w (author_id m) = 0 →
  completion env (build_messages cfg (history w (author_id m)) (content m))
    = Ok ai_text →
  chunks_of ai_text = pre ++ c :: post →
  Forall (fun c => channel_send env (channel_id m) c = Ok tt) pre →
  channel_send env (channel_id m) c = Raise e →
  ∃ w',
    chat_with_openai cfg env m w
      = (channel_send env (channel_id m) (error_notice e), w')
    ∧ same_sessions w w'
    ∧ tasks w' = tasks w ++ [typing_task_of (channel_id m) Cancelled]
    ∧ trace w'
      = trace w
        ++ ECreate (build_messages cfg (history w (author_id m)) (content m))
           :: map (ESend (channel_id m)) (pre ++ [c])
        ++ [ELogError (error_log e); ESend (channel_id m) (error_notice e)].
Proof.
  intros Hcd Hreply Hchunks Hpre Hc.
  rewrite chat_with_openai_unfold. cbv zeta.
  rewrite Hcd. simpl negb. cbv iota. unfold conversation.
  run_step. run_step.
  unfold completion in Hreply.
  destruct (ChatCompletion_create env _) as [[|c0 rest]|e'] eqn:Hcreate;
    [discriminate | injection Hreply as -> | discriminate].
  erewrite try_except_raise.
  2:{ unfold exchange.
      erewrite bind_ok; [|rewrite openai_create_run, Hcreate; reflexivity].
      run_step. erewrite bind_ok; [|reflexivity].
      erewrite bind_raise; [reflexivity|].
      by apply (send_large_message_raise env _ _ pre post c e). }
  unfold on_error. run_step. run_step. rewrite send_run. world_simpl.
  eexists. split; [reflexivity|].
  unfold same_sessions.
  repeat split; intros; world_simpl; try (by apply touch_default).
  by rewrite <- !app_assoc.
Qed.

(** Line 110 on an empty deque: the reply was delivered, [popleft]
    raises, the exception is logged and notified, nothing is stored. *)
Lemma chat_eviction_failure (cfg : Config) (env : Env) (m : Message) (w : World)
    (ai_text : str) :
  cooldown w (author_id m) = 0 →
  completion env (build_messages cfg (history w (author_id m)) (content m))
    = Ok ai_text →
  Forall (fun c => channel_send env (channel_id m) c = Ok tt) (chunks_of ai_text) →
  history w (author_id m) = [] →
  MAX_CACHE cfg ≤ 0 →
  let e := lit "pop from an empty deque" in
  ∃ w',
    chat_with_openai cfg env m w
      = (channel_send env (channel_id m) (error_notice e), w')
    ∧ same_sessions w w'
    ∧ tasks w' = tasks w ++ [typing_task_of (channel_id m) Cancelled]
    ∧ trace w'
      = trace w
        ++ ECreate (build_messages cfg [] (content m))
           :: map (ESend (channel_id m)) (chunks_of ai_text)
        ++ [ELogError (error_log e); ESend (channel_id m) (error_notice e)].
Proof.
  intros Hcd Hreply Hsent Hempty Hcap e.
  rewrite chat_with_openai_unfold. cbv zeta.
  rewrite Hcd. simpl negb. cbv iota. unfold conversation.
  run_step. run_step.
  unfold completion in Hreply.
  destruct (ChatCompletion_create env _) as [[|c0 rest]|e'] eqn:Hcreate;
    [discriminate | injection Hreply as -> | discriminate].
  rewrite Hempty in *.
  erewrite try_except_raise.
  2:{ unfold exchange.
      erewrite bind_ok; [|rewrite openai_create_run, Hcreate; reflexivity].
      run_step. erewrite bind_ok; [|reflexivity].
      erewrite bind_ok; [|by apply send_large_message_ok].
      run_step.
      replace (MAX_CACHE cfg <=? len []) with true
        by (symmetry; apply Z.leb_le; unfold len; simpl; lia).
      erewrite bind_raise; [reflexivity|].
      apply cache_popleft_empty. by world_simpl. }
  unfold on_error. run_step. run_step. rewrite send_run. world_simpl.
  eexists. split; [reflexivity|].
  unfold same_sessions.
  repeat split; intros; world_simpl.
  - rewrite ?insert_insert_eq. apply touch_default. exact Hempty.
  - by apply touch_default.
  - by rewrite <- !app_assoc.
Qed.

(** Every run of [chat_with_openai] is of one of three kinds: suppressed
    by the cooldown; failed after the completion call, with the chunks
    [sent] (attempted) before the exception [e]; or committed. *)
Lemma chat_cases (cfg : Config) (env : Env) (m : Message) (w : World) :
  let uid := author_id m in
  let ch := channel_id m in
  let msgs := build_messages cfg (history w uid) (content m) in
  let r := (chat_with_openai cfg env m w).1 in
  let w' := (chat_with_openai cfg env m w).2 in
  (cooldown w uid ≠ 0
   ∧ r = channel_send env ch cooldown_notice
   ∧ w' = emit [ESend ch cooldown_notice] w)
  ∨ (cooldown w uid = 0
     ∧ ∃ (e : str) (sent : list str),
         r = channel_send env ch (error_notice e)
         ∧ same_sessions w w'
         ∧ tasks w' = tasks w ++ [typing_task_of ch Cancelled]
         ∧ trace w'
           = trace w ++ ECreate msgs :: map (ESend ch) sent
             ++ [ELogError (error_log e); ESend ch (error_notice e)])
  ∨ (cooldown w uid = 0
     ∧ ∃ ai_text : str,
         completion env msgs = Ok ai_text
         ∧ (MAX_CACHE cfg ≤ len (history w uid) → history w uid ≠ [])
         ∧ r = Ok tt
         ∧ history w' uid
           = reference_policy (MAX_CACHE cfg) (history w uid)
               (lit "user", content m) (lit "assistant", ai_text)
         ∧ (∀ u, u ≠ uid → history w' u = history w u)
         ∧ cooldown w' uid = COOLDOWN_TIME cfg
         ∧ (∀ u, u ≠ uid → cooldown w' u = cooldown w u)
         ∧ tasks w'
           = tasks w ++ [typing_task_of ch Cancelled;
                         {| coro := cooldown_user uid; status := Ready |}]
         ∧ trace w'
           = trace w ++ ECreate msgs :: map (ESend ch) (chunks_of ai_text)).
Proof.
  intros uid ch msgs r w'. subst uid ch msgs r w'.
  destruct (Z.eq_dec (cooldown w (author_id m)) 0) as [Hcd|Hcd].
  2:{ left. rewrite chat_suppressed by done. done. }
  right.
  destruct (completion env
              (build_messages cfg (history w (author_id m)) (content m)))
    as [ai_text|e] eqn:Hreply.
  2:{ left. split; [done|]. exists e, [].
      destruct (chat_failure cfg env m w e Hcd Hreply)
        as (w' & -> & Hh & Hc & Ht & Htr).
      simpl. repeat split; auto. }
  destruct (sent_or_not env (channel_id m) (chunks_of ai_text))
    as [Hsent|(pre & c & post & e & Hchunks & Hpre & Hc)].
  2:{ left. split; [done|]. exists e, (pre ++ [c]).
      destruct (chat_delivery_failure cfg env m w ai_text pre post c e
                  Hcd Hreply Hchunks Hpre Hc) as (w' & -> & [Hs1 Hs2] & Ht & Htr).
      simpl. repeat split; auto. }
  destruct (history w (author_id m)) as [|x rest] eqn:Hh.
  - destruct (Z.le_gt_cases (MAX_CACHE cfg) 0) as [Hcap|Hcap].
    + left. split; [done|].
      exists (lit "pop from an empty deque"), (chunks_of ai_text).
      rewrite <- Hh in Hreply.
      destruct (chat_eviction_failure cfg env m w ai_text Hcd Hreply Hsent Hh Hcap)
        as (w' & -> & [Hs1 Hs2] & Ht & Htr).
      simpl. repeat split; auto.
    + right. split; [done|]. exists ai_text. split; [done|].
      split; [unfold len; simpl; lia|].
      rewrite <- Hh in Hreply.
      destruct (chat_success cfg env m w ai_text Hcd Hreply Hsent)
        as (w' & -> & Hhist & Ho & Hc & Hco & Ht & Htr).
      { rewrite Hh. unfold len. simpl. lia. }
      simpl. rewrite Hh in *. repeat split; auto.
  - right. split; [done|]. exists ai_text. split; [done|].
    split; [done|].
    rewrite <- Hh in Hreply.
    destruct (chat_success cfg env m w ai_text Hcd Hreply Hsent)
      as (w' & -> & Hhist & Ho & Hc & Hco & Ht & Htr).
    { by rewrite Hh. }
    simpl. rewrite Hh in *. repeat split; auto.
Qed.

(** ** More on the segmenter *)

(** X1.  A limit that is not positive never splits anything: with limit
    0 [range] raises [ValueError], and with a negative limit the range
    is empty, so the text, whatever it is, is dropped: no chunk. *)
Theorem split_message_nonpositive_limit (content : str) (limit : Z) :
  limit ≤ 0 →
  split_message content limit
  = if limit =? 0 then Raise (lit "range() arg 3 must not be zero") else Ok [].
Proof.
  intros Hlim. unfold split_message, range.
  destruct (Z.eqb_spec limit 0) as [_|Hnz]; [reflexivity|].
  destruct (Z.ltb_spec 0 limit) as [?|_]; [lia|].
  replace (Z.to_nat (0 - len content)) with 0%nat; [reflexivity|].
  pose proof (len_nonneg content). lia.
Qed.

Lemma split_message_nonpositive_limit_witness :
  split_message (lit "abc") 0 = Raise (lit "range() arg 3 must not be zero")
  ∧ split_message (lit "abc") (-2) = Ok [].
Proof.
  split.
  - apply (split_message_nonpositive_limit (lit "abc") 0). lia.
  - apply (split_message_nonpositive_limit (lit "abc") (-2)). lia.
Defined.

Lemma range_up_lookup (stop step : Z) (fuel : nat) :
  ∀ (i : Z) (k : nat) (j : Z),
    range_up fuel i stop step !! k = Some j →
    j = i + Z.of_nat k * step ∧ j < stop.
Proof.
  induction fuel as [|fuel IH]; intros i k j; simpl; [done|].
  destruct (Z.ltb_spec i stop) as [Hlt|_]; [|done].
  destruct k as [|k]; simpl.
  - intros [= <-]. lia.
  - intros Hk. destruct (IH _ _ _ Hk) as [-> ?]. lia.
Qed.

(** X2.  The split is of fixed width: chunk number [k] is the [limit]
    characters of the text from position [k * limit] on (fewer if the
    text ends), and every chunk but the last has exactly [limit]
    characters. *)
Theorem split_message_fixed_width (content : str) (limit : Z)
    (chunks : list str) (k : nat) (c : str) :
  0 < limit →
  split_message content limit = Ok chunks →
  chunks !! k = Some c →
  c = take (Z.to_nat limit) (drop (k * Z.to_nat limit) content)
  ∧ ((S k < length chunks)%nat → len c = limit).
Proof.
  intros Hlim Hsplit Hk. unfold split_message, range in Hsplit.
  destruct (Z.eqb_spec limit 0) as [?|_]; [lia|].
  destruct (Z.ltb_spec 0 limit) as [_|?]; [|lia].
  injection Hsplit as <-.
  set (idx := range_up (Z.to_nat (len content - 0)) 0 (len content) limit) in *.
  rewrite list_lookup_fmap in Hk.
  destruct (idx !! k) as [j|] eqn:Hj; [|done]. injection Hk as <-.
  destruct (range_up_lookup _ _ _ _ _ _ Hj) as [-> Hin].
  assert (Hpos : Z.to_nat (0 + Z.of_nat k * limit) = (k * Z.to_nat limit)%nat)
    by nia.
  split.
  - rewrite slice_chunk by lia. by rewrite Hpos.
  - rewrite length_fmap. intros Hnext.
    destruct (lookup_lt_is_Some_2 idx (S k) Hnext) as [j' Hj'].
    destruct (range_up_lookup _ _ _ _ _ _ Hj') as [-> Hin'].
    rewrite slice_chunk by lia. unfold len in *.
    rewrite length_take, length_drop. lia.
Qed.

Lemma split_message_fixed_width_witness :
  lit "abc" = take 3 (drop (0 * 3) (lit "abcdefg"))
  ∧ ((1 < length [lit "abc"; lit "def"; lit "g"])%nat → len (lit "abc") = 3).
Proof.
  apply (split_message_fixed_width (lit "abcdefg") 3
           [lit "abc"; lit "def"; lit "g"] 0 (lit "abc")); [lia|reflexivity..].
Defined.

(** X3.  A text that fits the limit is one chunk, itself; so a reply of
    1 to 2000 characters is sent as it is, in a single message, and
    [send_large_message] returns (or raises) what that one send does. *)
Theorem short_text_single_chunk (env : Env) (channel : Z) (text : str)
    (limit : Z) (w : World) :
  0 < len text →
  len text ≤ limit →
  split_message text limit = Ok [text]
  ∧ (limit = default_limit →
     send_large_message env channel text w
     = (channel_send env channel text, emit [ESend channel text] w)).
Proof.
  intros Hpos Hfit.
  assert (Hsplit : split_message text limit = Ok [text]).
  { unfold split_message, range.
    destruct (Z.eqb_spec limit 0) as [?|_]; [lia|].
    destruct (Z.ltb_spec 0 limit) as [_|?]; [|lia].
    destruct (Z.to_nat (len text - 0)) as [|fuel] eqn:Hfuel; [lia|].
    simpl. destruct (Z.ltb_spec 0 (len text)) as [_|?]; [|lia].
    replace (range_up fuel (0 + limit) (len text) limit) with (@nil Z).
    - simpl. rewrite slice_chunk by lia.
      change (Z.to_nat 0) with 0%nat. rewrite drop_0.
      rewrite take_ge; [done|]. unfold len in *. lia.
    - destruct fuel; [done|]. simpl.
      by destruct (Z.ltb_spec (0 + limit) (len text)) as [?|_]; [lia|]. }
  split; [exact Hsplit|]. intros ->.
  unfold send_large_message. rewrite Hsplit. simpl.
  unfold bind. rewrite send_run.
  by destruct (channel_send env channel text) as [[]|e].
Qed.

Lemma short_text_single_chunk_witness :
  split_message (lit "hello") 2000 = Ok [lit "hello"]
  ∧ (2000 = default_limit →
     send_large_message (env_ok 0 []) 3 (lit "hello") world0
     = (channel_send (env_ok 0 []) 3 (lit "hello"),
        emit [ESend 3 (lit "hello")] world0)).
Proof.
  apply (short_text_single_chunk (env_ok 0 []) 3 (lit "hello") 2000 world0);
    vm_compute; congruence.
Defined.

(** X4.  Delivery stops at the first chunk the platform refuses: the
    chunks before it and the refused one are the only sends attempted,
    in order; the later chunks are never sent, and the exception of the
    refused send is what [send_large_message] raises. *)
Theorem delivery_stops_at_first_failure (env : Env) (channel : Z) (text : str)
    (pre post : list str) (c e : str) (w : World) :
  chunks_of text = pre ++ c :: post →
  Forall (fun c => channel_send env channel c = Ok tt) pre →
  channel_send env channel c = Raise e →
  (send_large_message env channel text w).1 = Raise e
  ∧ new_effects w (send_large_message env channel text w).2
    = map (ESend channel) (pre ++ [c]).
Proof.
  intros Hchunks Hpre Hc.
  rewrite (send_large_message_raise env channel text pre post c e w Hchunks Hpre Hc).
  split; [done|]. by apply new_effects_app.
Qed.

Lemma delivery_stops_at_first_failure_witness :
  (send_large_message (env_refusing 0 []) 3 long_reply world0).1
  = Raise (lit "HTTP 400")
  ∧ new_effects world0
      (send_large_message (env_refusing 0 []) 3 long_reply world0).2
    = map (ESend 3) ([replicate 2000 "a"%char] ++ [lit "a"]).
Proof.
  apply (delivery_stops_at_first_failure (env_refusing 0 []) 3 long_reply
           [replicate 2000 "a"%char] [] (lit "a") (lit "HTTP 400") world0).
  - vm_compute. reflexivity.
  - repeat constructor.
  - reflexivity.
Defined.

(** ** More on the router and the filters of [on_message] *)

(** X5.  For an author without a last-interaction record the Router's
    decision is "mentioned or replied to", whatever the clock reads: the
    default record has no channel, and no channel equals none. *)
Theorem unknown_author_needs_mention (cfg : Config) (m : Message) (w : World)
    (now : Z) :
  user_last_interaction w !! author_id m = None →
  should_respond cfg m (last_interaction w (author_id m)) now
  = mentioned cfg m || replied_to_bot cfg m.
Proof.
  intros Hnone. unfold should_respond, last_interaction. rewrite Hnone.
  unfold same_channel. cbn [default snd default_interaction].
  rewrite bool_decide_eq_false_2 by done.
  by rewrite andb_false_r, orb_false_r.
Qed.

Lemma unknown_author_needs_mention_witness :
  should_respond cfg5 (msg "hi" false) (last_interaction world0 7) 5
  = mentioned cfg5 (msg "hi" false) || replied_to_bot cfg5 (msg "hi" false).
Proof.
  apply (unknown_author_needs_mention cfg5 (msg "hi" false) world0 5).
  reflexivity.
Defined.

(** X6.  A conversation goes on without mentions: once [on_message] has
    returned for a message that got past the filters, the author's next
    message is engaged by the Router when it comes in the same channel
    and the clock reads at most 120 seconds more than at the end of the
    first handler; in another channel it is engaged only by a mention or
    a reply. *)
Theorem follow_up_engaged_without_mention (cfg : Config) (env env2 : Env)
    (m m2 : Message) (w : World) :
  engaged cfg env m w = true →
  (on_message cfg env m w).1 = Ok tt →
  author_id m2 = author_id m →
  let li := last_interaction (after cfg env m w) (author_id m2) in
  (channel_id m2 = channel_id m →
   utcnow_route env2 - utcnow_done env ≤ timedelta_seconds 120 →
   should_respond cfg m2 li (utcnow_route env2) = true)
  ∧ (channel_id m2 ≠ channel_id m →
     should_respond cfg m2 li (utcnow_route env2)
     = mentioned cfg m2 || replied_to_bot cfg m2).
Proof.
  intros Heng Hret Hsame li.
  destruct (on_message_engaged cfg env m w Heng) as (Hr & _ & _ & _ & _ & Hli).
  assert (Hnew : li = (utcnow_done env, Some (channel_id m))).
  { subst li. rewrite Hli, <- Hr, Hret, Hsame.
    by rewrite bool_decide_eq_true_2. }
  rewrite Hnew. unfold should_respond, within_time, same_channel. simpl.
  split.
  - intros Hch Hrecent. rewrite Hch, bool_decide_eq_true_2 by done.
    apply Z.leb_le in Hrecent. rewrite Hrecent. by rewrite orb_true_r.
  - intros Hch. rewrite bool_decide_eq_false_2 by congruence.
    by rewrite andb_false_r, orb_false_r.
Qed.

Lemma follow_up_engaged_without_mention_witness :
  let env := env_fail 1000000 in
  let env2 := env_ok 100000000 (lit "r") in
  let m := msg "hi" true in
  let m2 := msg "and then?" false in
  let li := last_interaction (after cfg5 env m world0) 7 in
  (channel_id m2 = channel_id m →
   utcnow_route env2 - utcnow_done env ≤ timedelta_seconds 120 →
   should_respond cfg5 m2 li (utcnow_route env2) = true)
  ∧ (channel_id m2 ≠ channel_id m →
     should_respond cfg5 m2 li (utcnow_route env2)
     = mentioned cfg5 m2 || replied_to_bot cfg5 m2).
Proof.
  apply (follow_up_engaged_without_mention cfg5 (env_fail 1000000)
           (env_ok 100000000 (lit "r")) (msg "hi" true) (msg "and then?" false)
           world0); vm_compute; reflexivity.
Defined.

(** X7.  A message from a bot, or one the Router does not engage, is
    ignored entirely: [on_message] returns, the outside sees nothing, no
    task is created, and every history, cooldown and last-interaction
    record reads as before.  For a bot's message the world is not
    touched at all. *)
Theorem ignored_message_has_no_effect (cfg : Config) (env : Env) (m : Message)
    (w : World) :
  author_bot m = true
  ∨ should_respond cfg m (last_interaction w (author_id m)) (utcnow_route env)
    = false →
  let w' := after cfg env m w in
  (on_message cfg env m w).1 = Ok tt
  ∧ trace w' = trace w
  ∧ tasks w' = tasks w
  ∧ same_sessions w w'
  ∧ (∀ u, last_interaction w' u = last_interaction w u)
  ∧ (author_bot m = true → w' = w).
Proof.
  intros Hign w'. subst w'. unfold after. rewrite on_message_unfold.
  destruct (author_bot m) eqn:Hbot.
  { simpl. unfold same_sessions. by repeat split. }
  destruct Hign as [?|Hno]; [done|]. cbv zeta. rewrite Hno. simpl.
  unfold same_sessions. repeat split; try done.
  intros u. unfold last_interaction. simpl. apply default_lookup_touch.
Qed.

Lemma ignored_message_has_no_effect_witness :
  let w' := after cfg5 (env_ok 5 (lit "r")) (msg "chatter" false) world0 in
  (on_message cfg5 (env_ok 5 (lit "r")) (msg "chatter" false) world0).1 = Ok tt
  ∧ trace w' = trace world0
  ∧ tasks w' = tasks world0
  ∧ same_sessions world0 w'
  ∧ (∀ u, last_interaction w' u = last_interaction world0 u)
  ∧ (author_bot (msg "chatter" false) = true → w' = world0).
Proof.
  apply (ignored_message_has_no_effect cfg5 (env_ok 5 (lit "r"))
           (msg "chatter" false) world0).
  right. vm_compute. reflexivity.
Defined.


(** The permission rule: a user is permitted exactly when the guild
    has the role [ROLE_ID] and the user holds it or holds some role that
    the platform ranks at or above it.  In a guild without that role
    nobody is permitted. *)
Lemma permission_rule (cfg : Config) (m : Message) :
  permission_denied cfg m = false
  ↔ ROLE_ID cfg ∈ guild_roles m
    ∧ (ROLE_ID cfg ∈ author_roles m
       ∨ ∃ r, r ∈ author_roles m ∧ role_ge cfg r (ROLE_ID cfg) = true).
Proof.
  unfold permission_denied, get_role.
  case_bool_decide as Hguild; [|split; [discriminate | tauto]].
  rewrite andb_false_iff, !negb_false_iff, bool_decide_eq_true.
  rewrite existsb_exists.
  setoid_rewrite <- list_elem_of_In. tauto.
Qed.

(** X9.  A user without permission whose message the Router engages
    gets the permission notice and nothing else: no completion call, no
    task, no change to any history, cooldown or last-interaction record
    -- also while the user's cooldown runs, since the permission check
    comes first. *)
Theorem permission_denied_only_notifies (cfg : Config) (env : Env) (m : Message)
    (w : World) :
  author_bot m = false →
  should_respond cfg m (last_interaction w (author_id m)) (utcnow_route env)
    = true →
  permission_denied cfg m = true →
  let w' := after cfg env m w in
  (on_message cfg env m w).1 = channel_send env (channel_id m) permission_notice
  ∧ new_effects w w' = [ESend (channel_id m) permission_notice]
  ∧ tasks w' = tasks w
  ∧ same_sessions w w'
  ∧ (∀ u, last_interaction w' u = last_interaction w u).
Proof.
  intros Hbot Hroute Hdenied w'. subst w'. unfold after.
  rewrite on_message_unfold, Hbot. cbv zeta. rewrite Hroute, Hdenied.
  simpl negb. cbv iota. rewrite send_run. simpl.
  unfold same_sessions. repeat split; try done.
  - by apply new_effects_app.
  - intros u. unfold last_interaction. simpl. apply default_lookup_touch.
Qed.

Lemma permission_denied_only_notifies_witness :
  let env := env_ok 5 (lit "r") in
  let m := stranger_msg "hi" in
  let w' := after cfg5 env m world_4turns in
  (on_message cfg5 env m world_4turns).1 = channel_send env 3 permission_notice
  ∧ new_effects world_4turns w' = [ESend 3 permission_notice]
  ∧ tasks w' = tasks world_4turns
  ∧ same_sessions world_4turns w'
  ∧ (∀ u, last_interaction w' u = last_interaction world_4turns u).
Proof.
  apply (permission_denied_only_notifies cfg5 (env_ok 5 (lit "r"))
           (stranger_msg "hi") world_4turns); vm_compute; reflexivity.
Defined.

(** ** More on the exchange *)

(** What [on_message] adds to a run of [chat_with_openai], for the
    records the exchange is about. *)
Lemma on_message_engaged_chat (cfg : Config) (env : Env) (m : Message)
    (w : World) :
  engaged cfg env m w = true →
  ∃ w1,
    (∀ u, history w1 u = history w u)
    ∧ (∀ u, cooldown w1 u = cooldown w u)
    ∧ tasks w1 = tasks w
    ∧ trace w1 = trace w
    ∧ (on_message cfg env m w).1 = (chat_with_openai cfg env m w1).1
    ∧ same_sessions (chat_with_openai cfg env m w1).2 (after cfg env m w)
    ∧ tasks (after cfg env m w) = tasks (chat_with_openai cfg env m w1).2
    ∧ trace (after cfg env m w) = trace (chat_with_openai cfg env m w1).2.
Proof.
  intros Heng.
  destruct (on_message_engaged cfg env m w Heng) as (Hr & Hh & Hc & Ht & Htr & _).
  exists (set_last_interaction
            (<[author_id m := last_interaction w (author_id m)]>
               (user_last_interaction w)) w).
  split; [reflexivity|]. split; [reflexivity|].
  split; [reflexivity|]. split; [reflexivity|].
  split; [exact Hr|]. split; [split; [exact Hh|exact Hc]|].
  split; [exact Ht|exact Htr].
Qed.

(** X10.  A reply that cannot be delivered in full is not remembered: when
    a chunk is refused, the chunks before it have been sent, the
    exception is logged and an error notice is sent; the history, the
    cooldowns and the expiry tasks are as before, although the
    completion call was made and answered. *)
Theorem undelivered_reply_is_not_stored (cfg : Config) (env : Env)
    (m : Message) (w : World) (ai_text : str) (pre post : list str) (c e : str) :
  engaged cfg env m w = true →
  cooldown w (author_id m) = 0 →
  completion env (build_messages cfg (history w (author_id m)) (content m))
    = Ok ai_text →
  chunks_of ai_text = pre ++ c :: post →
  Forall (fun c => channel_send env (channel_id m) c = Ok tt) pre →
  channel_send env (channel_id m) c = Raise e →
  let w' := after cfg env m w in
  (on_message cfg env m w).1 = channel_send env (channel_id m) (error_notice e)
  ∧ same_sessions w w'
  ∧ tasks w' = tasks w ++ [typing_task_of (channel_id m) Cancelled]
  ∧ new_effects w w'
    = ECreate (build_messages cfg (history w (author_id m)) (content m))
      :: map (ESend (channel_id m)) (pre ++ [c])
      ++ [ELogError (error_log e); ESend (channel_id m) (error_notice e)].
Proof.
  intros Heng Hcd Hreply Hchunks Hpre Hc w'.
  destruct (on_message_engaged_chat cfg env m w Heng)
    as (w1 & Hh1 & Hc1 & Ht1 & Htr1 & Hr & [Hsh Hsc] & Ht & Htr).
  fold w' in Hsh, Hsc, Ht, Htr.
  rewrite <- Hh1 in Hreply. rewrite <- Hc1 in Hcd.
  destruct (chat_delivery_failure cfg env m w1 ai_text pre post c e
              Hcd Hreply Hchunks Hpre Hc)
    as (w2 & Hrun & [Hh2 Hc2] & Ht2 & Htr2).
  rewrite Hrun in *. simpl in *.
  split; [done|]. split; [|split].
  - split; intros u; [by rewrite Hsh, Hh2, Hh1 | by rewrite Hsc, Hc2, Hc1].
  - by rewrite Ht, Ht2, Ht1.
  - apply new_effects_app. by rewrite Htr, Htr2, Htr1, Hh1.
Qed.

Lemma undelivered_reply_is_not_stored_witness :
  let env := env_refusing 8000000 long_reply in
  let m := msg "third" true in
  let w' := after cfg5 env m world_4turns in
  (on_message cfg5 env m world_4turns).1
  = channel_send env 3 (error_notice (lit "HTTP 400"))
  ∧ same_sessions world_4turns w'
  ∧ tasks w' = tasks world_4turns ++ [typing_task_of 3 Cancelled]
  ∧ new_effects world_4turns w'
    = ECreate (build_messages cfg5 (history world_4turns 7) (lit "third"))
      :: map (ESend 3) ([replicate 2000 "a"%char] ++ [lit "a"])
      ++ [ELogError (error_log (lit "HTTP 400"));
          ESend 3 (error_notice (lit "HTTP 400"))].
Proof.
  apply (undelivered_reply_is_not_stored cfg5 (env_refusing 8000000 long_reply)
           (msg "third" true) world_4turns long_reply
           [replicate 2000 "a"%char] [] (lit "a") (lit "HTTP 400")).
  - vm_compute. reflexivity.
  - vm_compute. reflexivity.
  - vm_compute. reflexivity.
  - vm_compute. reflexivity.
  - repeat constructor.
  - reflexivity.
Defined.

(** X11.  With [MAX_CACHE <= 0] the first exchange of a user cannot be
    stored: the reply is delivered, then line 110 pops from the empty
    deque, and the user is sent "An error occurred: pop from an empty
    deque"; the history stays empty and no cooldown is armed. *)
Theorem empty_cache_cap_breaks_exchange (cfg : Config) (env : Env)
    (m : Message) (w : World) (ai_text : str) :
  MAX_CACHE cfg ≤ 0 →
  engaged cfg env m w = true →
  cooldown w (author_id m) = 0 →
  history w (author_id m) = [] →
  completion env (build_messages cfg [] (content m)) = Ok ai_text →
  Forall (fun c => channel_send env (channel_id m) c = Ok tt) (chunks_of ai_text) →
  let w' := after cfg env m w in
  let e := lit "pop from an empty deque" in
  same_sessions w w'
  ∧ tasks w' = tasks w ++ [typing_task_of (channel_id m) Cancelled]
  ∧ new_effects w w'
    = ECreate (build_messages cfg [] (content m))
      :: map (ESend (channel_id m)) (chunks_of ai_text)
      ++ [ELogError (error_log e); ESend (channel_id m) (error_notice e)].
Proof.
  intros Hcap Heng Hcd Hempty Hreply Hsent w' e.
  destruct (on_message_engaged_chat cfg env m w Heng)
    as (w1 & Hh1 & Hc1 & Ht1 & Htr1 & Hr & [Hsh Hsc] & Ht & Htr).
  fold w' in Hsh, Hsc, Ht, Htr.
  rewrite <- Hh1 in Hempty. rewrite <- Hc1 in Hcd.
  assert (Hreply1 : completion env
            (build_messages cfg (history w1 (author_id m)) (content m))
          = Ok ai_text) by (by rewrite Hempty).
  destruct (chat_eviction_failure cfg env m w1 ai_text Hcd Hreply1 Hsent
              Hempty Hcap)
    as (w2 & Hrun & [Hh2 Hc2] & Ht2 & Htr2).
  rewrite Hrun in *. simpl in *.
  split; [|split].
  - split; intros u; [by rewrite Hsh, Hh2, Hh1 | by rewrite Hsc, Hc2, Hc1].
  - by rewrite Ht, Ht2, Ht1.
  - apply new_effects_app. by rewrite Htr, Htr2, Htr1.
Qed.

Lemma empty_cache_cap_breaks_exchange_witness :
  let env := env_ok 1000000 (lit "r1") in
  let m := msg "hi" true in
  let w' := after cfg0 env m world0 in
  let e := lit "pop from an empty deque" in
  same_sessions world0 w'
  ∧ tasks w' = tasks world0 ++ [typing_task_of 3 Cancelled]
  ∧ new_effects world0 w'
    = ECreate (build_messages cfg0 [] (lit "hi"))
      :: map (ESend 3) (chunks_of (lit "r1"))
      ++ [ELogError (error_log e); ESend 3 (error_notice e)].
Proof.
  apply (empty_cache_cap_breaks_exchange cfg0 (env_ok 1000000 (lit "r1"))
           (msg "hi" true) world0 (lit "r1")).
  - vm_compute. discriminate.
  - vm_compute. reflexivity.
  - vm_compute. reflexivity.
  - vm_compute. reflexivity.
  - vm_compute. reflexivity.
  - repeat constructor.
Defined.

(** X12.  An exchange is stored whole or not at all, and only for its
    author.  After any run of [on_message], the histories and cooldowns
    of all other users read as before; for the author, either history
    and cooldown read as before and no expiry task was created, or the
    completion service replied and all three happened together: the two
    turns were appended (after the eviction), the cooldown holds
    [COOLDOWN_TIME], and the expiry task is the last task created. *)
Theorem exchange_stored_whole_or_not_at_all (cfg : Config) (env : Env)
    (m : Message) (w : World) :
  let uid := author_id m in
  let w' := after cfg env m w in
  (∀ u, u ≠ uid → history w' u = history w u ∧ cooldown w' u = cooldown w u)
  ∧ ((history w' uid = history w uid
      ∧ cooldown w' uid = cooldown w uid
      ∧ (tasks w' = tasks w
         ∨ tasks w' = tasks w ++ [typing_task_of (channel_id m) Cancelled]))
     ∨ (∃ ai_text,
          completion env (build_messages cfg (history w uid) (content m))
            = Ok ai_text
          ∧ history w' uid
            = reference_policy (MAX_CACHE cfg) (history w uid)
                (lit "user", content m) (lit "assistant", ai_text)
          ∧ cooldown w' uid = COOLDOWN_TIME cfg
          ∧ tasks w'
            = tasks w ++ [typing_task_of (channel_id m) Cancelled;
                          {| coro := cooldown_user uid; status := Ready |}])).
Proof.
  intros uid w'. subst uid.
  destruct (engaged cfg env m w) eqn:Heng.
  2:{ destruct (on_message_not_engaged cfg env m w Heng) as (_ & Hh & Hc & Ht).
      fold w' in Hh, Hc, Ht. split; [intros; by rewrite Hh, Hc|].
      left. rewrite Hh, Hc, Ht. auto. }
  destruct (on_message_engaged_chat cfg env m w Heng)
    as (w1 & Hh1 & Hc1 & Ht1 & Htr1 & Hr & [Hsh Hsc] & Ht & Htr).
  fold w' in Hsh, Hsc, Ht, Htr.
  destruct (chat_cases cfg env m w1)
    as [(Hcd & _ & Hw)|[(Hcd & e & sent & _ & [Hh2 Hc2] & Ht2 & _)
       |(Hcd & ai & Hreply & _ & _ & Hh2 & Ho2 & Hc2 & Hco2 & Ht2 & _)]].
  - assert (Hh2 : ∀ u, history (chat_with_openai cfg env m w1).2 u = history w1 u)
      by (intros; by rewrite Hw).
    assert (Hc2 : ∀ u, cooldown (chat_with_openai cfg env m w1).2 u = cooldown w1 u)
      by (intros; by rewrite Hw).
    assert (Ht2 : tasks (chat_with_openai cfg env m w1).2 = tasks w1)
      by (by rewrite Hw).
    split; [intros; by rewrite Hsh, Hsc, Hh2, Hc2, Hh1, Hc1|].
    left. rewrite Hsh, Hsc, Ht, Hh2, Hc2, Ht2, Hh1, Hc1, Ht1. auto.
  - split; [intros; by rewrite Hsh, Hsc, Hh2, Hc2, Hh1, Hc1|].
    left. rewrite Hsh, Hsc, Ht, Hh2, Hc2, Ht2, Hh1, Hc1, Ht1. auto.
  - split; [intros u Hu; by rewrite Hsh, Hsc, Ho2, Hco2, Hh1, Hc1|].
    right. exists ai. rewrite Hh1 in Hreply, Hh2.
    rewrite Hsh, Hsc, Ht, Hh2, Hc2, Ht2, Ht1. auto.
Qed.

Lemma count_create_sends (ch : Z) (texts : list str) :
  count_create (map (ESend ch) texts) = 0%nat.
Proof.
  unfold count_create. induction texts as [|t texts IH]; [done|].
  simpl. by rewrite filter_cons_False.
Qed.

Lemma count_create_app (es1 es2 : list Effect) :
  count_create (es1 ++ es2) = (count_create es1 + count_create es2)%nat.
Proof. unfold count_create. by rewrite filter_app, length_app. Qed.

(** X13.  No retry, no call for nothing: handling one message makes
    exactly one completion call when the message gets past the filters
    and the author's cooldown is off, and none otherwise. *)
Theorem one_completion_call_per_admitted_message (cfg : Config) (env : Env)
    (m : Message) (w : World) :
  count_create (new_effects w (after cfg env m w))
  = if engaged cfg env m w && (cooldown w (author_id m) =? 0)
    then 1%nat else 0%nat.
Proof.
  destruct (engaged cfg env m w) eqn:Heng; simpl.
  2:{ unfold engaged in Heng. unfold after. rewrite on_message_unfold.
      destruct (author_bot m).
      { simpl. unfold new_effects. by rewrite drop_all. }
      cbv zeta. simpl in Heng.
      destruct (should_respond _ _ _ _); simpl in *.
      - destruct (permission_denied cfg m); [|done]. rewrite send_run. simpl.
        by rewrite (new_effects_app _ _ [ESend (channel_id m) permission_notice]).
      - unfold new_effects. simpl. by rewrite drop_all. }
  destruct (on_message_engaged_chat cfg env m w Heng)
    as (w1 & Hh1 & Hc1 & Ht1 & Htr1 & _ & _ & _ & Htr).
  destruct (chat_cases cfg env m w1)
    as [(Hcd & _ & Hw)|[(Hcd & e & sent & _ & _ & _ & Htr2)
       |(Hcd & ai & _ & _ & _ & _ & _ & _ & _ & _ & Htr2)]];
    rewrite Hc1 in Hcd.
  - destruct (Z.eqb_spec (cooldown w (author_id m)) 0); [done|].
    rewrite Hw in Htr. simpl in Htr. rewrite Htr1 in Htr.
    by rewrite (new_effects_app _ _ _ Htr).
  - rewrite Hcd. simpl. rewrite Htr2, Htr1 in Htr.
    rewrite (new_effects_app _ _ _ Htr).
    change (ECreate ?x :: ?l) with ([ECreate x] ++ l).
    by rewrite !count_create_app, count_create_sends.
  - rewrite Hcd. simpl. rewrite Htr2, Htr1 in Htr.
    rewrite (new_effects_app _ _ _ Htr).
    change (ECreate ?x :: ?l) with ([ECreate x] ++ l).
    by rewrite !count_create_app, count_create_sends.
Qed.





(** ** What holds in every world the bot can reach *)

(** What one run of [on_message] does to the session of one user. *)
Lemma on_message_session (cfg : Config) (env : Env) (m : Message) (w : World)
    (u : Z) :
  let w' := after cfg env m w in
  (history w' u = history w u ∧ cooldown w' u = cooldown w u)
  ∨ (u = author_id m
     ∧ cooldown w u = 0
     ∧ (MAX_CACHE cfg ≤ len (history w u) → history w u ≠ [])
     ∧ cooldown w' u = COOLDOWN_TIME cfg
     ∧ ∃ ai_text,
         history w' u
         = reference_policy (MAX_CACHE cfg) (history w u)
             (lit "user", content m) (lit "assistant", ai_text)).
Proof.
  intros w'.
  destruct (engaged cfg env m w) eqn:Heng.
  2:{ destruct (on_message_not_engaged cfg env m w Heng) as (_ & Hh & Hc & _).
      left. by rewrite Hh, Hc. }
  destruct (on_message_engaged_chat cfg env m w Heng)
    as (w1 & Hh1 & Hc1 & _ & _ & _ & [Hsh Hsc] & _).
  fold w' in Hsh, Hsc.
  destruct (chat_cases cfg env m w1)
    as [(_ & _ & Hw)|[(_ & e & sent & _ & [Hh2 Hc2] & _)
       |(Hcd & ai & _ & Hpop & _ & Hh2 & Ho2 & Hc2 & Hco2 & _)]].
  - left. rewrite Hsh, Hsc, Hw. simpl. by rewrite <- Hh1, <- Hc1.
  - left. by rewrite Hsh, Hsc, Hh2, Hc2, Hh1, Hc1.
  - destruct (decide (u = author_id m)) as [->|Hu].
    + right. rewrite Hh1 in Hpop, Hh2. rewrite Hc1 in Hcd.
      rewrite Hsh, Hsc, Hh2, Hc2. eauto 10.
    + left. by rewrite Hsh, Hsc, Ho2, Hco2, Hh1, Hc1.
Qed.

Lemma typing_signals_app (es1 es2 : list Effect) :
  typing_signals (es1 ++ es2) = typing_signals es1 ++ typing_signals es2.
Proof. unfold typing_signals. apply filter_app. Qed.

Lemma typing_signals_sends (ch : Z) (texts : list str) :
  typing_signals (map (ESend ch) texts) = [].
Proof.
  unfold typing_signals. induction texts as [|t texts IH]; [done|].
  simpl. by rewrite filter_cons_False.
Qed.

(** A handler emits no keep-alive signal and leaves no live keep-alive
    task. *)
Lemma on_message_keeps_quiet (cfg : Config) (env : Env) (m : Message)
    (w : World) :
  let w' := after cfg env m w in
  typing_signals (trace w') = typing_signals (trace w)
  ∧ ∃ added, tasks w' = tasks w ++ added
             ∧ Forall (fun t => is_live_typing t = false) added.
Proof.
  intros w'.
  destruct (engaged cfg env m w) eqn:Heng.
  2:{ split.
      - subst w'. unfold engaged in Heng. unfold after.
        rewrite on_message_unfold.
        destruct (author_bot m); [done|]. cbv zeta. simpl in Heng.
        destruct (should_respond _ _ _ _); simpl in *; [|done].
        destruct (permission_denied cfg m); [|done]. rewrite send_run. simpl.
        rewrite typing_signals_app. simpl. by rewrite app_nil_r.
      - destruct (on_message_not_engaged cfg env m w Heng) as (_ & _ & _ & Ht).
        exists []. fold w' in Ht. by rewrite Ht, app_nil_r. }
  destruct (on_message_engaged_chat cfg env m w Heng)
    as (w1 & _ & _ & Ht1 & Htr1 & _ & _ & Ht & Htr).
  fold w' in Ht, Htr. split.
  - rewrite Htr.
    destruct (chat_cases cfg env m w1)
      as [(_ & _ & Hw)|[(_ & e & sent & _ & _ & _ & Htr2)
         |(_ & ai & _ & _ & _ & _ & _ & _ & _ & _ & Htr2)]].
    + rewrite Hw. simpl. rewrite typing_signals_app, Htr1. simpl.
      by rewrite app_nil_r.
    + rewrite Htr2, Htr1.
      change (ECreate ?x :: ?l) with ([ECreate x] ++ l).
      rewrite !typing_signals_app, typing_signals_sends. simpl.
      by rewrite app_nil_r.
    + rewrite Htr2, Htr1.
      change (ECreate ?x :: ?l) with ([ECreate x] ++ l).
      rewrite !typing_signals_app, typing_signals_sends. simpl.
      by rewrite app_nil_r.
  - rewrite Ht, <- Ht1.
    destruct (chat_tasks cfg env m w1) as [[_ Hsame]|(_ & e2 & Hadd & Hall)].
    + exists []. by rewrite Hsame, app_nil_r.
    + eexists. split; [exact Hadd|]. constructor; [done|].
      eapply Forall_impl; [exact Hall|]. by intros [[ch|uid] s].
Qed.

(** A turn of the loop leaves histories alone and can only switch a
    cooldown off. *)
Lemma resume_all_cooldown (cfg : Config) (now : Z) (ts : list Task)
    (cd : gmap Z Z) (u : Z) :
  default 0 ((resume_all cfg now ts cd).1.2 !! u) = default 0 (cd !! u)
  ∨ default 0 ((resume_all cfg now ts cd).1.2 !! u) = 0.
Proof.
  revert cd. induction ts as [|t ts IH]; intros cd; simpl; [by left|].
  assert (Ht : default 0 ((resume cfg now t cd).1.2 !! u) = default 0 (cd !! u)
               ∨ default 0 ((resume cfg now t cd).1.2 !! u) = 0).
  { unfold resume. destruct t as [[ch|uid] [|until| |]]; simpl; auto;
      destruct (until <=? now); simpl; auto.
    destruct (decide (uid = u)) as [->|Hne].
    - right. by rewrite lookup_insert_eq.
    - left. by rewrite lookup_insert_ne. }
  destruct (resume cfg now t cd) as [[t1 cd1] es1]. simpl in Ht.
  specialize (IH cd1).
  destruct (resume_all cfg now ts cd1) as [[ts2 cd2] es2]. simpl in *.
  destruct IH as [IH|IH]; [|by right]. rewrite IH. exact Ht.
Qed.

Lemma loop_step_sessions (cfg : Config) (now : Z) (w : World) (u : Z) :
  history (loop_step cfg now w) u = history w u
  ∧ last_interaction (loop_step cfg now w) u = last_interaction w u
  ∧ (cooldown (loop_step cfg now w) u = cooldown w u
     ∨ cooldown (loop_step cfg now w) u = 0).
Proof.
  split; [|split].
  - unfold loop_step. by destruct (resume_all _ _ _ _) as [[ts cd] es].
  - unfold loop_step. by destruct (resume_all _ _ _ _) as [[ts cd] es].
  - rewrite loop_step_cooldown. apply resume_all_cooldown.
Qed.

(** X16.  A cooldown is either off or holds [COOLDOWN_TIME]: in every
    world the bot can reach, [user_cooldown] reads 0 or [COOLDOWN_TIME]
    for every user. *)
Theorem cooldown_is_zero_or_configured (cfg : Config) (w : World) (u : Z) :
  reachable cfg w →
  cooldown w u = 0 ∨ cooldown w u = COOLDOWN_TIME cfg.
Proof.
  induction 1 as [|w w' _ IH Hstep]; [by left|].
  destruct Hstep as [env m w|now w].
  - destruct (on_message_session cfg env m w u) as [[_ ->]|(_ & _ & _ & -> & _)];
      [exact IH | by right].
  - destruct (loop_step_sessions cfg now w u) as (_ & _ & [->| ->]);
      [exact IH | by left].
Qed.

(** Replay the steps by which a world of the scenario was built. *)
Ltac replay :=
  repeat (eapply reachable_step;
          [|first [apply step_loop | apply step_message]]);
  apply reachable_start.

Lemma cooldown_is_zero_or_configured_witness :
  cooldown world_4turns 7 = 0 ∨ cooldown world_4turns 7 = COOLDOWN_TIME cfg5.
Proof.
  apply (cooldown_is_zero_or_configured cfg5 world_4turns 7).
  unfold world_4turns. replay.
Defined.

(** X17.  The typing indicator never shows.  The keep-alive task is
    created and cancelled without an [await] in between (the completion
    call blocks the loop), so in every world the bot can reach no
    keep-alive task is live and the outside has never seen a typing
    signal. *)
Theorem typing_signal_never_emitted (cfg : Config) (w : World) :
  reachable cfg w →
  typing_signals (trace w) = [] ∧ live_typing w = [].
Proof.
  intros Hreach.
  assert (H : typing_signals (trace w) = []
              ∧ Forall (fun t => is_live_typing t = false) (tasks w)).
  { induction Hreach as [|w w' _ [IHtr IHts] Hstep]; [by split|].
    destruct Hstep as [env m w|now w].
    - destruct (on_message_keeps_quiet cfg env m w)
        as (Htr & added & Hts & Hadded).
      split; [by rewrite Htr|]. rewrite Hts. by apply Forall_app.
    - destruct (resume_all_inert cfg now (tasks w) (user_cooldown w) IHts)
        as [Hts Hsig].
      rewrite loop_step_trace, loop_step_tasks, typing_signals_app, IHtr, Hsig.
      by split. }
  destruct H as [Htr Hts]. split; [exact Htr|].
  by apply live_typing_inert.
Qed.

Lemma typing_signal_never_emitted_witness :
  typing_signals (trace world_4turns) = [] ∧ live_typing world_4turns = [].
Proof.
  apply (typing_signal_never_emitted cfg5 world_4turns).
  unfold world_4turns. replay.
Defined.

Lemma paired_roles_snoc (n : nat) :
  paired_roles n ++ [lit "user"; lit "assistant"] = paired_roles (S n).
Proof.
  induction n as [|n IH]; [done|].
  cbn [paired_roles app] in *. by rewrite IH.
Qed.

Lemma well_paired_policy (cap : Z) (h : list Turn) (c1 c2 : str) :
  well_paired h →
  (cap ≤ len h → h ≠ []) →
  well_paired (reference_policy cap h (lit "user", c1) (lit "assistant", c2)).
Proof.
  intros (n & k & Hroles) Hpop. unfold reference_policy, well_paired, Turn in *.
  assert (Hgen : ∀ j : nat,
    (j ≤ length (paired_roles n))%nat →
    map fst (drop (j - k) h) = drop j (paired_roles n) →
    well_paired (drop (j - k) h ++ [(lit "user", c1); (lit "assistant", c2)])).
  { intros j Hj Hd. exists (S n), j.
    rewrite List.map_app, Hd, <- paired_roles_snoc. simpl map.
    by rewrite drop_app_le. }
  destruct (decide (k ≤ length (paired_roles n))%nat) as [Hk|Hk].
  - destruct (Z.leb_spec cap (len h)) as [Hfull|_].
    + specialize (Hpop Hfull).
      assert (Hlt : (k < length (paired_roles n))%nat).
      { destruct (decide (k = length (paired_roles n))) as [->|]; [|lia].
        rewrite drop_all in Hroles. by destruct h. }
      specialize (Hgen (S k)). replace (S k - k)%nat with 1%nat in Hgen by lia.
      apply Hgen; [lia|].
      rewrite <- skipn_map, Hroles, drop_drop. f_equal. lia.
    + specialize (Hgen k Hk). rewrite Nat.sub_diag, drop_0 in Hgen.
      by apply Hgen.
  - rewrite drop_ge in Hroles by lia.
    destruct h as [|x h]; [|done].
    destruct (cap <=? _) eqn:Hfull;
      [apply Z.leb_le in Hfull; by specialize (Hpop Hfull)|].
    exists 1%nat, 0%nat. reflexivity.
Qed.

(** X18.  Stored turns keep their rhythm: in every world the bot can
    reach, the roles of each history are "user", "assistant", "user",
    ... ending with "assistant", except that after an eviction the
    first turn may be an assistant turn whose user turn is gone.  No
    "system" turn is ever stored. *)
Theorem histories_alternate (cfg : Config) (w : World) (u : Z) :
  reachable cfg w → well_paired (history w u).
Proof.
  induction 1 as [|w w' _ IH Hstep]; [by exists 0%nat, 0%nat|].
  destruct Hstep as [env m w|now w].
  - destruct (on_message_session cfg env m w u)
      as [[-> _]|(_ & _ & Hpop & _ & ai & ->)]; [exact IH|].
    by apply well_paired_policy.
  - destruct (loop_step_sessions cfg now w u) as (-> & _). exact IH.
Qed.

Lemma histories_alternate_witness : well_paired (history world_4turns 7).
Proof.
  apply (histories_alternate cfg5 world_4turns 7).
  unfold world_4turns. replay.
Defined.

(** X19.  With [MAX_CACHE <= 0] the bot remembers nothing and never arms
    a cooldown: in every world it can reach, every history is empty and
    every cooldown is off (each exchange ends in the exception of line
    110, before anything is stored). *)
Theorem nothing_stored_without_cache (cfg : Config) (w : World) (u : Z) :
  MAX_CACHE cfg ≤ 0 →
  reachable cfg w →
  history w u = [] ∧ cooldown w u = 0.
Proof.
  intros Hcap. induction 1 as [|w w' _ [IHh IHc] Hstep]; [by split|].
  destruct Hstep as [env m w|now w].
  - destruct (on_message_session cfg env m w u)
      as [[-> ->]|(_ & _ & Hpop & _)]; [by split|].
    exfalso. rewrite IHh in Hpop. apply Hpop; [|done].
    unfold len. simpl. lia.
  - destruct (loop_step_sessions cfg now w u) as (-> & _ & [->| ->]);
      by split.
Qed.

Lemma nothing_stored_without_cache_witness :
  let w := after cfg0 (env_ok 1000000 (lit "r1")) (msg "hi" true) world0 in
  history w 7 = [] ∧ cooldown w 7 = 0.
Proof.
  apply (nothing_stored_without_cache cfg0
           (after cfg0 (env_ok 1000000 (lit "r1")) (msg "hi" true) world0) 7).
  - vm_compute. discriminate.
  - replay.
Defined.

(** ** The history grows *)

(** X20.  The cap does not hold: whenever an exchange is stored for an
    author whose history already has [MAX_CACHE - 1] turns or more, the
    history is afterwards longer than [MAX_CACHE]. *)
Theorem stored_exchange_exceeds_cap (cfg : Config) (env : Env) (m : Message)
    (w : World) (ai_text : str) :
  engaged cfg env m w = true →
  cooldown w (author_id m) = 0 →
  completion env (build_messages cfg (history w (author_id m)) (content m))
    = Ok ai_text →
  Forall (fun c => channel_send env (channel_id m) c = Ok tt) (chunks_of ai_text) →
  (MAX_CACHE cfg ≤ len (history w (author_id m)) → history w (author_id m) ≠ []) →
  MAX_CACHE cfg - 1 ≤ len (history w (author_id m)) →
  MAX_CACHE cfg < len (history (after cfg env m w) (author_id m)).
Proof.
  intros Heng Hcd Hreply Hsent Hpop Hnear.
  destruct (on_message_engaged_chat cfg env m w Heng)
    as (w1 & Hh1 & Hc1 & _ & _ & _ & [Hsh _] & _).
  rewrite <- Hh1 in Hreply. rewrite <- Hc1 in Hcd.
  assert (Hpop1 : MAX_CACHE cfg ≤ len (history w1 (author_id m)) →
                  history w1 (author_id m) ≠ []) by (by rewrite Hh1).
  destruct (chat_success cfg env m w1 ai_text Hcd Hreply Hsent Hpop1)
    as (w2 & Hrun & Hh2 & _).
  rewrite Hsh, Hrun. simpl. rewrite Hh2, Hh1.
  unfold len in *. rewrite length_app. simpl.
  destruct (Z.leb_spec (MAX_CACHE cfg)
              (Z.of_nat (length (history w (author_id m))))) as [Hfull|Hroom].
  - rewrite length_drop.
    destruct (history w (author_id m)) as [|x rest]; [by specialize (Hpop Hfull)|].
    simpl in *. lia.
  - lia.
Qed.

Lemma stored_exchange_exceeds_cap_witness :
  MAX_CACHE cfg5
  < len (history (after cfg5 (env_ok 8000000 (lit "r3")) (msg "third" true)
                    world_4turns) 7).
Proof.
  apply (stored_exchange_exceeds_cap cfg5 (env_ok 8000000 (lit "r3"))
           (msg "third" true) world_4turns (lit "r3")).
  - vm_compute. reflexivity.
  - vm_compute. reflexivity.
  - vm_compute. reflexivity.
  - repeat constructor.
  - vm_compute. discriminate.
  - vm_compute. discriminate.
Defined.



(** ** More on the loop *)

Lemma resume_keeps_kind (cfg : Config) (now : Z) (t : Task) (cd : gmap Z Z) :
  coro (resume cfg now t cd).1.1 = coro t
  ∧ is_live_typing (resume cfg now t cd).1.1 = is_live_typing t
  ∧ Forall (fun e => is_ETyping e = true) (resume cfg now t cd).2.
Proof.
  unfold resume. destruct t as [[ch|uid] [|until| |]]; simpl;
    try destruct (until <=? now); simpl; repeat split; by repeat constructor.
Qed.

Lemma resume_all_keeps_kind (cfg : Config) (now : Z) (ts : list Task)
    (cd : gmap Z Z) :
  map coro (filter (fun t => is_live_typing t = true)
                   (resume_all cfg now ts cd).1.1)
  = map coro (filter (fun t => is_live_typing t = true) ts)
  ∧ Forall (fun e => is_ETyping e = true) (resume_all cfg now ts cd).2.
Proof.
  revert cd. induction ts as [|t ts IH]; intros cd; simpl; [by split|].
  destruct (resume_keeps_kind cfg now t cd) as (Hc & Hl & He).
  destruct (resume cfg now t cd) as [[t1 cd1] es1]. simpl in Hc, Hl, He.
  destruct (IH cd1) as [IHc IHe].
  destruct (resume_all cfg now ts cd1) as [[ts2 cd2] es2]. simpl in *.
  split; [|by apply Forall_app].
  rewrite !filter_cons, Hl.
  destruct (decide (is_live_typing t = true)); simpl; by rewrite ?Hc, IHc.
Qed.


(** X23.  A turn of the loop talks to nobody and arms nothing: all it
    emits are typing signals, and for every user the history and the
    last interaction read as before and the cooldown reads as before or
    is switched off. *)
Theorem loop_only_ends_cooldowns (cfg : Config) (now : Z) (w : World) (u : Z) :
  let w' := loop_step cfg now w in
  Forall (fun e => is_ETyping e = true) (new_effects w w')
  ∧ history w' u = history w u
  ∧ last_interaction w' u = last_interaction w u
  ∧ (cooldown w' u = cooldown w u ∨ cooldown w' u = 0).
Proof.
  intros w'. split; [|apply loop_step_sessions].
  rewrite (new_effects_app w w' _ (loop_step_trace cfg now w)).
  apply resume_all_keeps_kind.
Qed.

(** ** What is stored is what is sent next *)

(** X24.  The bot recalls the exchange it stored: after a successful
    exchange and the expiry of its cooldown, the request for the
    author's next message is the system instruction, then the history
    as the exchange left it -- ending with the user turn and the
    assistant turn just stored -- then the new user turn. *)
Theorem next_request_recalls_exchange (cfg : Config) (env env3 : Env)
    (m m3 : Message) (w : World) (ai_text : str) (t0 t1 : Z) :
  engaged cfg env m w = true →
  cooldown w (author_id m) = 0 →
  completion env (build_messages cfg (history w (author_id m)) (content m))
    = Ok ai_text →
  Forall (fun c => channel_send env (channel_id m) c = Ok tt) (chunks_of ai_text) →
  (MAX_CACHE cfg ≤ len (history w (author_id m)) → history w (author_id m) ≠ []) →
  t0 + timedelta_seconds (COOLDOWN_TIME cfg) ≤ t1 →
  let w3 := loop_step cfg t1 (loop_step cfg t0 (after cfg env m w)) in
  author_id m3 = author_id m →
  engaged cfg env3 m3 w3 = true →
  ∃ es,
    new_effects w3 (after cfg env3 m3 w3)
    = ECreate ((lit "system", SYSTEM_MESSAGE cfg)
               :: reference_policy (MAX_CACHE cfg) (history w (author_id m))
                    (lit "user", content m) (lit "assistant", ai_text)
               ++ [(lit "user", content m3)])
      :: es.
Proof.
  intros Heng Hcd Hreply Hsent Hpop Hlate w3 Hsame Heng3.
  destruct (on_message_engaged_chat cfg env m w Heng)
    as (w1 & Hh1 & Hc1 & Ht1 & _ & _ & [Hsh _] & Ht & _).
  rewrite <- Hh1 in Hreply, Hpop. rewrite <- Hc1 in Hcd.
  destruct (chat_success cfg env m w1 ai_text Hcd Hreply Hsent Hpop)
    as (w2 & Hrun & Hh2 & _ & _ & _ & Ht2 & _).
  rewrite Hrun in Hsh, Ht. simpl in Hsh, Ht.
  assert (Hhist : history w3 (author_id m)
                  = reference_policy (MAX_CACHE cfg) (history w (author_id m))
                      (lit "user", content m) (lit "assistant", ai_text)).
  { subst w3.
    destruct (loop_step_sessions cfg t1
                (loop_step cfg t0 (after cfg env m w)) (author_id m)) as (-> & _).
    destruct (loop_step_sessions cfg t0 (after cfg env m w) (author_id m))
      as (-> & _).
    by rewrite Hsh, Hh2, Hh1. }
  assert (Hoff : cooldown w3 (author_id m) = 0).
  { subst w3.
    apply (cooldown_expires cfg t0 t1 _
             (tasks w ++ [typing_task_of (channel_id m) Cancelled]));
      [|exact Hlate].
    rewrite Ht, Ht2, Ht1. by rewrite <- app_assoc. }
  destruct (on_message_engaged_chat cfg env3 m3 w3 Heng3)
    as (w4 & Hh4 & Hc4 & _ & Htr4 & _ & _ & _ & Htr).
  destruct (chat_first_effect cfg env3 m3 w4) as [es Hes].
  { by rewrite Hc4, Hsame. }
  exists es. apply new_effects_app.
  by rewrite Htr, Hes, Htr4, Hh4, Hsame, Hhist, build_messages_eq.
Qed.

Lemma next_request_recalls_exchange_witness :
  let env := env_ok 8000000 (lit "r3") in
  let env3 := env_fail 20000000 in
  let m := msg "third" true in
  let m3 := msg "fourth" false in
  let w3 := loop_step cfg5 11000000
              (loop_step cfg5 8000002 (after cfg5 env m world_4turns)) in
  ∃ es,
    new_effects w3 (after cfg5 env3 m3 w3)
    = ECreate ((lit "system", lit "be kind")
               :: reference_policy 5 (history world_4turns 7)
                    (lit "user", lit "third") (lit "assistant", lit "r3")
               ++ [(lit "user", lit "fourth")])
      :: es.
Proof.
  apply (next_request_recalls_exchange cfg5 (env_ok 8000000 (lit "r3"))
           (env_fail 20000000) (msg "third" true) (msg "fourth" false)
           world_4turns (lit "r3") 8000002 11000000).
  - vm_compute. reflexivity.
  - vm_compute. reflexivity.
  - vm_compute. reflexivity.
  - repeat constructor.
  - vm_compute. discriminate.
  - vm_compute. discriminate.
  - reflexivity.
  - vm_compute. reflexivity.
Defined.

(** ** Expiry tasks *)














